(** * connect-loki: a Loki.js session store for Connect/Express

    Shallow embedding of [lib/connect-loki.js] and of the part of the
    Loki.js collection API the store calls, followed by the properties of
    the session-store contract.

    Conventions.
    - JavaScript values are an inductive type with the language's
      truthiness; a session payload is any such value.
    - A method of the store is a computation in a state-and-exception
      monad over the store object: it either completes, yielding the
      argument list it handed to the callback [fn], or throws.
    - [new Date()] and Loki's [Date.now()] read a clock; every operation
      that reads it takes the current time [now] (milliseconds) as an
      argument. *)

From Stdlib Require Import ZArith.
From stdpp Require Import base gmap strings list.

Local Open Scope Z_scope.

(** ** JavaScript values *)

Module JS.

#[local] Set Warnings "-register-all".
Inductive Value : Type :=
| Undefined
| Null
| Bool (b : bool)
| Number (n : Z)            (* integer-valued numbers *)
| NaN
| String (s : string)
| Date (ms : Z)             (* a Date object, by its epoch milliseconds *)
| Function (name : string)  (* a function object, by the name of its code *)
| Object (props : list (string * Value)).
#[local] Set Warnings "register-all".

(** ToBoolean. *)
Definition truthy (v : Value) : bool :=
  match v with
  | Undefined | Null | NaN => false
  | Bool b => b
  | Number n => negb (n =? 0)
  | String s => negb (String.eqb s "")
  | Date _ | Function _ | Object _ => true
  end.

(** [a || b] *)
Definition or (a b : Value) : Value := if truthy a then a else b.

(** [typeof v === 'function'] *)
Definition is_function (v : Value) : bool :=
  match v with Function _ => true | _ => false end.

(** [v == null], the test of [_.isNil] *)
Definition isNil (v : Value) : bool :=
  match v with Undefined | Null => true | _ => false end.

(** [v !== false] *)
Definition strict_ne_false (v : Value) : bool :=
  match v with Bool false => false | _ => true end.

(** [v === 0] *)
Definition strict_eq_zero (v : Value) : bool :=
  match v with Number 0 => true | _ => false end.

(** An object used as a bag of named properties; reading a missing
    property gives [undefined]. *)
Definition prop (o : gmap string Value) (k : string) : Value :=
  default Undefined (o !! k).

Inductive Error : Type :=
| TypeError (msg : string)
| GenericError (msg : string).

(** Outcome of running a piece of code. *)
Inductive Completion (A : Type) : Type :=
| Normal (a : A)
| Throw (e : Error).
Arguments Normal {A} a.
Arguments Throw {A} e.

(** Code running against a mutable object of type [S]. A throw keeps the
    mutations made before it. *)
Definition Eff (S A : Type) : Type := S -> Completion A * S.

Definition ret {S A} (a : A) : Eff S A := fun s => (Normal a, s).

Definition throw {S A} (e : Error) : Eff S A := fun s => (Throw e, s).

Definition bind {S A B} (m : Eff S A) (k : A -> Eff S B) : Eff S B :=
  fun s =>
    match m s with
    | (Normal a, s') => k a s'
    | (Throw e, s') => (Throw e, s')
    end.

End JS.

Notation "'let*' x ':=' m 'in' k" := (JS.bind m (fun x => k))
  (at level 10, x name, m at level 100, k at level 200, only parsing).
Notation "m >> k" := (JS.bind m (fun _ => k))
  (at level 100, k at level 200, right associativity, only parsing).

(** ** The Loki.js collection, as far as the store uses it

    Loki.js is a dependency of the store, not part of it. The model
    follows its documented collection API: a collection is an ordered
    array of documents; [find] returns references to the stored documents
    (Loki does not clone by default), so assigning to a field of a found
    document changes the stored document; [update] re-registers a changed
    document and stamps its [meta]; documents age out only when the
    collection was given a document age ([ttl]) next to the sweep
    interval ([ttlInterval]).

    The store creates its collection with a binary index on [_id], and
    Loki answers [find({ _id })] through that index, so the documents of
    one id come in the order the index lists them. An insert or an update
    splices the document in at the start of the range of its id; a batch
    removal ([findAndRemove], the TTL sweep) sorts the index anew, which
    puts the documents of one id in collection order. The order between
    documents of different ids never shows in [find({ _id })] and is not
    modelled. *)

Module Loki.

Record Meta : Type := {
  revision : Z;
  created : Z;
  updated : option Z
}.

(** A session document as the store writes it, with Loki's [meta]. *)
Record Doc : Type := {
  _id : string;
  session : JS.Value;
  updatedAt : JS.Value;
  meta : Meta
}.

Definition with_session (v : JS.Value) (d : Doc) : Doc :=
  {| _id := _id d; session := v; updatedAt := updatedAt d; meta := meta d |}.

Definition with_updatedAt (v : JS.Value) (d : Doc) : Doc :=
  {| _id := _id d; session := session d; updatedAt := v; meta := meta d |}.

Definition with_meta (m : Meta) (d : Doc) : Doc :=
  {| _id := _id d; session := session d; updatedAt := updatedAt d; meta := m |}.

(** The TTL settings of a collection: [daemon] tells whether an interval
    timer running the sweep is registered. *)
Record TTL : Type := {
  age : option Z;
  ttlInterval : JS.Value;
  daemon : bool
}.

(** A reference to a stored document: its position in [data]. *)
Abbreviation Ref := nat (only parsing).

(** [front] is the state of the [_id] index: the positions spliced in at
    the start of their id's range since the index was last sorted, latest
    first. Within one id the index lists these first, at their first
    mention, and then the other documents in collection order. *)
Record Collection : Type := {
  name : JS.Value;
  data : list Doc;
  binaryIndices : list string;
  front : list Ref;
  ttl : TTL
}.

Definition with_data (l : list Doc) (c : Collection) : Collection :=
  {| name := name c; data := l; binaryIndices := binaryIndices c;
     front := front c; ttl := ttl c |}.

Definition with_front (f : list Ref) (c : Collection) : Collection :=
  {| name := name c; data := data c; binaryIndices := binaryIndices c;
     front := f; ttl := ttl c |}.

(** The options of [addCollection] the store may pass. *)
Record CollectionOptions : Type := {
  indices : list string;
  opt_ttl : option Z;          (* document age; the store never passes it *)
  opt_ttlInterval : JS.Value
}.

(** [setTTL(age, interval)]: a negative age clears the timer, any other
    age registers the sweep timer. *)
Definition setTTL (a : Z) (interval : JS.Value) (t : TTL) : TTL :=
  if a <? 0 then {| age := age t; ttlInterval := ttlInterval t; daemon := false |}
  else {| age := Some a; ttlInterval := interval; daemon := true |}.

(** [new Collection(name, options)]; it ends with
    [this.setTTL(options.ttl || -1, options.ttlInterval)]. *)
Definition addCollection (n : JS.Value) (o : CollectionOptions) : Collection :=
  let a := match opt_ttl o with
           | Some a => if a =? 0 then -1 else a
           | None => -1
           end in
  {| name := n;
     data := [];
     binaryIndices := indices o;
     front := [];
     ttl := setTTL a (opt_ttlInterval o)
              {| age := None; ttlInterval := JS.Null; daemon := false |} |}.

(** What the database file holds of a collection: its documents and the
    positions its [_id] index lists, in order. *)
Record Saved : Type := {
  saved_data : list Doc;
  saved_index : list Ref
}.

(** A collection read back from the database file: Loki rebuilds it with
    [addCollection] without TTL options and fills in the saved documents
    and the saved index. *)
Definition restored (n : JS.Value) (ix : list string) (s : Saved) : Collection :=
  with_front (saved_index s)
    (with_data (saved_data s)
       (addCollection n {| indices := ix; opt_ttl := None;
                           opt_ttlInterval := JS.Undefined |})).

(** Each position once, where it is mentioned first. *)
Fixpoint firsts (l : list Ref) : list Ref :=
  match l with
  | [] => []
  | r :: l' => r :: List.filter (fun r' => negb (Nat.eqb r' r)) (firsts l')
  end.

(** The positions of the documents in the order in which the [_id] index
    lists the documents of one id. *)
Definition order (c : Collection) : list Ref :=
  firsts (front c) ++
  List.filter (fun r => negb (existsb (Nat.eqb r) (front c)))
    (seq 0 (List.length (data c))).

(** The document at a position, if it carries the queried id. *)
Definition pick (q : string) (l : list Doc) (r : Ref) : option (Ref * Doc) :=
  match l !! r with
  | Some d => if String.eqb (_id d) q then Some (r, d) else None
  | None => None
  end.

Definition matching (q : string) (c : Collection) : list (Ref * Doc) :=
  omap (pick q (data c)) (order c).

(** [find({ _id })]: the documents whose [_id] is the queried one, in
    index order, each with the reference it is reached by. *)
Definition find (q : string) : JS.Eff Collection (list (Ref * Doc)) :=
  fun c => (JS.Normal (matching q c), c).

(** A field assignment through a reference returned by [find]. *)
Definition assign (r : Ref) (f : Doc -> Doc) (c : Collection) : Collection :=
  match data c !! r with
  | Some d => with_data (<[r := f d]> (data c)) c
  | None => c
  end.

(** The [meta] Loki gives a document on insertion, and the stamp it puts
    on a document on update. *)
Definition insertMeta (now : Z) : Meta :=
  {| revision := 0; created := now; updated := None |}.

Definition updateMeta (now : Z) (d : Doc) : Doc :=
  with_meta {| revision := revision (meta d) + 1;
               created := created (meta d);
               updated := Some now |} d.

(** [insert({ _id, session, updatedAt })] of a fresh object: appended to
    the documents and spliced into the index. *)
Definition insert (id : string) (sess at_ : JS.Value) (now : Z) : JS.Eff Collection unit :=
  fun c =>
    let d := {| _id := id; session := sess; updatedAt := at_; meta := insertMeta now |} in
    (JS.Normal tt,
     with_front (List.length (data c) :: front c) (with_data (data c ++ [d]) c)).

(** [update(doc)]: the document must be in the collection; its [meta] is
    stamped, and it is taken out of the index and spliced in again. *)
Definition update (r : Ref) (now : Z) : JS.Eff Collection unit :=
  fun c =>
    match data c !! r with
    | Some d =>
        (JS.Normal tt,
         with_front (r :: front c) (with_data (<[r := updateMeta now d]> (data c)) c))
    | None =>
        (JS.Throw (JS.GenericError "Trying to update a document not in collection."), c)
    end.

Fixpoint remove_id (q : string) (l : list Doc) : list Doc :=
  match l with
  | [] => []
  | d :: l' => if String.eqb (_id d) q then remove_id q l' else d :: remove_id q l'
  end.

(** [findAndRemove({ _id })]: removes every matching document in one
    batch and sorts the index anew. *)
Definition findAndRemove (q : string) : JS.Eff Collection unit :=
  fun c => (JS.Normal tt, with_front [] (with_data (remove_id q (data c)) c)).

(** [clear()]: no documents, an empty index. *)
Definition clear : JS.Eff Collection unit :=
  fun c => (JS.Normal tt, with_front [] (with_data [] c)).

(** [count()] *)
Definition count : JS.Eff Collection Z :=
  fun c => (JS.Normal (Z.of_nat (List.length (data c))), c).

(** The sweep run by the TTL timer: a document is dropped when the
    collection's age is less than the time since
    [meta.updated || meta.created]. *)
Definition stamp (d : Doc) : Z :=
  match updated (meta d) with
  | Some u => if u =? 0 then created (meta d) else u
  | None => created (meta d)
  end.

Definition aged (a now : Z) (d : Doc) : bool := a <? now - stamp d.

Definition ttlDaemon (now : Z) (c : Collection) : Collection :=
  match age (ttl c) with
  | Some a =>
      with_front [] (with_data (List.filter (fun d => negb (aged a now d)) (data c)) c)
  | None => c
  end.

(** One firing opportunity of the collection's timers. *)
Definition timers_fire (now : Z) (c : Collection) : Collection :=
  if daemon (ttl c) then ttlDaemon now c else c.

End Loki.

(** ** The store: [lib/connect-loki.js] *)

Module ConnectLoki.

(** What [new Loki(storePath, {...})] was configured with. *)
Record Client : Type := {
  filename : JS.Value;
  env : string;
  client_autosave : bool;
  autosaveInterval : Z;
  adapter : string
}.

(** The fields of a [LokiStore] object. [collection] stays unset until the
    database has been loaded; [emitted] lists the events emitted so far. *)
Record Store : Type := {
  autosave : bool;
  storePath : JS.Value;
  ttl : JS.Value;
  collectionName : JS.Value;
  client : Client;
  logger : JS.Value;
  collection : option Loki.Collection;
  emitted : list string
}.

Definition with_collection (c : option Loki.Collection) (self : Store) : Store :=
  {| autosave := autosave self; storePath := storePath self; ttl := ttl self;
     collectionName := collectionName self; client := client self;
     logger := logger self; collection := c; emitted := emitted self |}.

Definition emit (e : string) (self : Store) : Store :=
  {| autosave := autosave self; storePath := storePath self; ttl := ttl self;
     collectionName := collectionName self; client := client self;
     logger := logger self; collection := collection self;
     emitted := emitted self ++ [e] |}.

(** [_.noop] *)
Definition noop : JS.Value := JS.Function "noop".

(** The logger installed when [logErrors] is set but is not a function. *)
Definition console_logger : JS.Value :=
  JS.Function "console.error('Warning: connect-loki reported a client error: ' + err)".

(** [new LokiStore(options)], up to the asynchronous [loadDatabase] call.
    [options] is [None] when the caller passes nothing. Returns the new
    store and the options object as the constructor leaves it. (The base
    constructor [Store.call(this, options)] of express-session only sets
    up the event emitter.) *)
Definition LokiStore (options : option (gmap string JS.Value))
  : Store * gmap string JS.Value :=
  let options := default ∅ options in
  let autosave := JS.strict_ne_false (JS.prop options "autosave") in
  let storePath := JS.or (JS.prop options "path") (JS.String "./session-store.db") in
  let ttl := JS.or (JS.prop options "ttl") (JS.Number 1209600) in
  let ttl := if JS.strict_eq_zero ttl then JS.Null else ttl in
  let collectionName := JS.or (JS.prop options "collection") (JS.String "Sessions") in
  let client := {| filename := storePath; env := "NODEJS";
                   client_autosave := autosave; autosaveInterval := 5000;
                   adapter := "LokiFsStructuredAdapter" |} in
  let '(options, logger) :=
    if JS.truthy (JS.prop options "logErrors") then
      let options :=
        if negb (JS.is_function (JS.prop options "logErrors"))
        then <["logErrors" := console_logger]> options
        else options in
      (options, JS.prop options "logErrors")
    else (options, noop) in
  ({| autosave := autosave; storePath := storePath; ttl := ttl;
      collectionName := collectionName; client := client; logger := logger;
      collection := None; emitted := [] |},
   options).

(** The callback of [loadDatabase]. [saved] is what the loaded database
    holds under [collectionName]: nothing, or a saved collection. (The
    ['error'] listener attached to the collection only forwards to
    [logger].) *)
Definition loaded (saved : option Loki.Saved) (self : Store) : Store :=
  let c :=
    match saved with
    | Some s => Loki.restored (collectionName self) ["_id"] s
    | None =>
        Loki.addCollection (collectionName self)
          {| Loki.indices := ["_id"];
             Loki.opt_ttl := None;
             Loki.opt_ttlInterval := ttl self |}
    end in
  emit "connect" (with_collection (Some c) self).

(** [this.collection.m(...)]: a method call on the collection handle; on
    an unset handle the property access throws. *)
Definition on_collection {A} (m : JS.Eff Loki.Collection A) : JS.Eff Store A :=
  fun self =>
    match collection self with
    | None =>
        (JS.Throw (JS.TypeError "Cannot read properties of undefined"), self)
    | Some c => let (r, c') := m c in (r, with_collection (Some c') self)
    end.

(** [!this.collection] *)
Definition no_collection : JS.Eff Store bool :=
  fun self => (JS.Normal (negb (bool_decide (is_Some (collection self)))), self).

(** [s[0].field = v] on a document returned by [find]. *)
Definition assign (r : Loki.Ref) (f : Loki.Doc -> Loki.Doc) : JS.Eff Store unit :=
  fun self =>
    (JS.Normal tt, with_collection (Loki.assign r f <$> collection self) self).

(** Every method below returns the argument list it calls [fn] with
    ([fn] being the caller's callback, or [_.noop] in its absence). *)

Definition get (_id : string) : JS.Eff Store (list JS.Value) :=
  let* unset := no_collection in
  if unset then JS.ret [JS.Null]
  else
    let* s := on_collection (Loki.find _id) in
    match s with
    | (_, d) :: _ =>
        if JS.truthy (Loki.session d)
        then JS.ret [JS.Null; Loki.session d]
        else JS.ret [JS.Null]
    | [] => JS.ret [JS.Null]
    end.

Definition set (_id : string) (sess : JS.Value) (now : Z)
  : JS.Eff Store (list JS.Value) :=
  let* s := on_collection (Loki.find _id) in
  match s with
  | (r, d) :: _ =>
      if JS.truthy (Loki.session d) then
        assign r (Loki.with_session sess) >>
        assign r (Loki.with_updatedAt (JS.Date now)) >>
        on_collection (Loki.update r now)
      else on_collection (Loki.insert _id sess (JS.Date now) now)
  | [] => on_collection (Loki.insert _id sess (JS.Date now) now)
  end >>
  JS.ret [JS.Null].

Definition destroy (_id : string) : JS.Eff Store (list JS.Value) :=
  on_collection (Loki.findAndRemove _id) >>
  JS.ret [JS.Null].

Definition clear : JS.Eff Store (list JS.Value) :=
  on_collection Loki.clear >>
  JS.ret [JS.Null].

Definition length : JS.Eff Store (list JS.Value) :=
  let* c := on_collection Loki.count in
  JS.ret [JS.Null; JS.Number c].

Definition touch (_id : string) (sess : JS.Value) (now : Z)
  : JS.Eff Store (list JS.Value) :=
  let* s := on_collection (Loki.find _id) in
  match s with
  | (r, d) :: _ =>
      if JS.truthy (Loki.updatedAt d) then
        assign r (Loki.with_updatedAt (JS.Date now)) >>
        on_collection (Loki.update r now)
      else JS.ret tt
  | [] => JS.ret tt
  end >>
  JS.ret [].

(** *** Histories of a store *)

Inductive Call : Type :=
| OpGet (_id : string)
| OpSet (_id : string) (sess : JS.Value)
| OpDestroy (_id : string)
| OpClear
| OpLength
| OpTouch (_id : string) (sess : JS.Value).

Definition call (now : Z) (op : Call) : JS.Eff Store (list JS.Value) :=
  match op with
  | OpGet i => get i
  | OpSet i v => set i v now
  | OpDestroy i => destroy i
  | OpClear => clear
  | OpLength => length
  | OpTouch i v => touch i v now
  end.

(** What can happen to a store: a façade call, the completion of the
    database load, or the timers of its collection coming due. *)
Inductive Event : Type :=
| Invoke (op : Call)
| Loaded (saved : option Loki.Saved)
| Timers.

Definition step (now : Z) (e : Event) (self : Store) : Store :=
  match e with
  | Invoke op => snd (call now op self)
  | Loaded saved => loaded saved self
  | Timers => with_collection (Loki.timers_fire now <$> collection self) self
  end.

Definition run (history : list (Z * Event)) (self : Store) : Store :=
  fold_left (fun s te => step (fst te) (snd te) s) history self.

(** *** Observations *)

(** The callback received no error: its first argument is absent, [null]
    or [undefined]. *)
Definition no_error (args : list JS.Value) : bool :=
  match args with
  | [] => true
  | e :: _ => JS.isNil e
  end.

(** The callback of [get] received no session. *)
Definition not_found (args : list JS.Value) : bool :=
  match args with
  | [] => true
  | [e] => JS.isNil e
  | e :: v :: _ => JS.isNil e && JS.isNil v
  end.

(** The documents of the store, none while the handle is unset. *)
Definition records (self : Store) : list Loki.Doc :=
  match collection self with
  | Some c => Loki.data c
  | None => []
  end.

(** The documents [find] yields for an id. *)
Definition matches (_id : string) (self : Store) : list (Loki.Ref * Loki.Doc) :=
  match collection self with
  | Some c => Loki.matching _id c
  | None => []
  end.

(** The ids of the stored documents, in order. *)
Definition ids (self : Store) : list string := Loki._id <$> records self.

(** The document [find] yields first for an id, if any, carries a truthy
    session. *)
Definition first_session_truthy (_id : string) (self : Store) : bool :=
  match matches _id self with
  | (_, d) :: _ => JS.truthy (Loki.session d)
  | [] => true
  end.

(** What [set] turns a replaced document into, what [touch] turns a
    touched document into, and the document [set] inserts. *)
Definition replaced (sess : JS.Value) (now : Z) (d : Loki.Doc) : Loki.Doc :=
  Loki.updateMeta now
    (Loki.with_updatedAt (JS.Date now) (Loki.with_session sess d)).

Definition touched (now : Z) (d : Loki.Doc) : Loki.Doc :=
  Loki.updateMeta now (Loki.with_updatedAt (JS.Date now) d).

Definition inserted (_id : string) (sess : JS.Value) (now : Z) : Loki.Doc :=
  {| Loki._id := _id; Loki.session := sess; Loki.updatedAt := JS.Date now;
     Loki.meta := Loki.insertMeta now |}.

(** A sweep timer is registered on the store's collection. *)
Definition sweeping (self : Store) : bool :=
  match collection self with
  | Some c => Loki.daemon (Loki.ttl c)
  | None => false
  end.

(** Every stored document has its [updatedAt] set. *)
Definition stamped (self : Store) : Prop :=
  Forall (fun d => JS.truthy (Loki.updatedAt d) = true) (records self).

(** A store whose database has loaded and holds no document yet, built
    with default options. *)
Definition fresh : Store := loaded None (fst (LokiStore None)).

(** What the store holds apart from time stamps: ids and sessions. *)
Definition content (self : Store) : list (string * JS.Value) :=
  (fun d => (Loki._id d, Loki.session d)) <$> records self.

(** Every stored session is truthy. *)
Definition sessions_truthy (self : Store) : Prop :=
  Forall (fun d => JS.truthy (Loki.session d) = true) (records self).

(** The call writes no falsy session. *)
Definition writes_truthy (op : Call) : bool :=
  match op with
  | OpSet _ v => JS.truthy v
  | _ => true
  end.

(** The event is neither a [destroy], nor a [clear], nor a reload. *)
Definition keeps_records (e : Event) : bool :=
  match e with
  | Invoke (OpDestroy _) | Invoke OpClear | Loaded _ => false
  | _ => true
  end.

End ConnectLoki.

(** * Properties *)

(** ** The order of the index *)

Section Index.

Local Open Scope nat_scope.

Lemma omap_cons {A B} (g : A -> option B) (x : A) (l : list A) :
  omap g (x :: l) = match g x with Some y => y :: omap g l | None => omap g l end.
Proof. reflexivity. Qed.

Lemma omap_same {A B} (g g' : A -> option B) (l : list A) :
  (forall x, x ∈ l -> g' x = g x) -> omap g' l = omap g l.
Proof.
  induction l as [|x l IH]; intros H; [reflexivity|].
  rewrite !omap_cons, (H x ltac:(constructor)), IH; [reflexivity|].
  intros y Hy. apply H. now constructor.
Qed.

Lemma filter_elem {A} (P : A -> bool) (l : list A) (x : A) :
  x ∈ List.filter P l <-> x ∈ l /\ P x = true.
Proof. rewrite !list_elem_of_In. apply List.filter_In. Qed.

Lemma filter_ne_elem r (l : list nat) x :
  x ∈ List.filter (fun y => negb (Nat.eqb y r)) l <-> x ∈ l /\ x <> r.
Proof. now rewrite filter_elem, Bool.negb_true_iff, Nat.eqb_neq. Qed.

(** Dropping a position from a list changes the documents picked from it
    only by that position's document. *)
Lemma omap_filter_ne {B} (g : nat -> option B) (r : nat) (l : list nat) :
  g r = None -> omap g (List.filter (fun y => negb (Nat.eqb y r)) l) = omap g l.
Proof.
  intros Hr. induction l as [|x l IH]; [reflexivity|].
  cbn [List.filter]. destruct (Nat.eqb x r) eqn:E; cbn [negb].
  - apply Nat.eqb_eq in E. subst x. now rewrite omap_cons, Hr.
  - rewrite !omap_cons, IH. reflexivity.
Qed.

Lemma firsts_elem x l : x ∈ Loki.firsts l <-> x ∈ l.
Proof.
  induction l as [|y l IH]; simpl; [reflexivity|].
  rewrite !elem_of_cons, filter_ne_elem, IH.
  destruct (decide (x = y)); tauto.
Qed.

Lemma filter_NoDup {A} (P : A -> bool) (l : list A) :
  NoDup l -> NoDup (List.filter P l).
Proof.
  induction 1 as [|x l Hx _ IH]; simpl; [constructor|].
  destruct (P x); [|exact IH]. constructor; [|exact IH].
  rewrite filter_elem. tauto.
Qed.

Lemma firsts_NoDup l : NoDup (Loki.firsts l).
Proof.
  induction l as [|y l IH]; simpl; constructor.
  - rewrite filter_ne_elem. tauto.
  - now apply filter_NoDup.
Qed.

Lemma existsb_eqb_elem x (l : list nat) :
  existsb (Nat.eqb x) l = true <-> x ∈ l.
Proof.
  rewrite List.existsb_exists, list_elem_of_In. split.
  - intros (y & Hy & E). apply Nat.eqb_eq in E. now subst.
  - intros H. exists x. split; [exact H | apply Nat.eqb_refl].
Qed.

Lemma order_elem c x :
  x ∈ Loki.order c <-> x ∈ Loki.front c \/ x < List.length (Loki.data c).
Proof.
  unfold Loki.order.
  rewrite elem_of_app, firsts_elem, filter_elem, elem_of_seq, Bool.negb_true_iff.
  destruct (existsb (Nat.eqb x) (Loki.front c)) eqn:E.
  - apply existsb_eqb_elem in E. split; [intros [?|[_ ?]]|]; auto; discriminate.
  - split; [intros [?|[? _]]; [auto | right; lia]|].
    intros [H|H]; [auto | right; split; [lia | reflexivity]].
Qed.

Lemma order_NoDup c : NoDup (Loki.order c).
Proof.
  unfold Loki.order. apply NoDup_app. split; [apply firsts_NoDup|]. split.
  - intros x Hx Hx'. apply (proj1 (firsts_elem _ _)) in Hx.
    rewrite filter_elem, Bool.negb_true_iff in Hx'.
    destruct Hx' as [_ Hx']. apply (proj2 (existsb_eqb_elem _ _)) in Hx. congruence.
  - apply filter_NoDup, NoDup_seq.
Qed.

(** Splicing a position in puts it first and leaves the others in their
    order. *)
Lemma order_front c c' r :
  Loki.front c' = r :: Loki.front c ->
  List.length (Loki.data c') = List.length (Loki.data c) ->
  Loki.order c' = r :: List.filter (fun y => negb (Nat.eqb y r)) (Loki.order c).
Proof.
  unfold Loki.order. intros -> ->. simpl. rewrite List.filter_app. do 2 f_equal.
  induction (seq 0 (List.length (Loki.data c))) as [|x l IH]; [reflexivity|].
  simpl. rewrite Bool.negb_orb.
  destruct (existsb (Nat.eqb x) (Loki.front c)); simpl.
  - rewrite Bool.andb_false_r. exact IH.
  - rewrite Bool.andb_true_r. destruct (Nat.eqb x r); simpl; now rewrite IH.
Qed.

(** A document added at the end comes last unless its position is
    already spliced in. *)
Lemma order_snoc c c' :
  Loki.front c' = Loki.front c ->
  List.length (Loki.data c') = S (List.length (Loki.data c)) ->
  Loki.order c' =
  Loki.order c ++
  (if existsb (Nat.eqb (List.length (Loki.data c))) (Loki.front c)
   then [] else [List.length (Loki.data c)]).
Proof.
  unfold Loki.order. intros -> ->.
  rewrite seq_S, List.filter_app, app_assoc. simpl.
  now destruct (existsb (Nat.eqb (List.length (Loki.data c))) (Loki.front c)).
Qed.

Lemma order_sorted c :
  Loki.front c = [] -> Loki.order c = seq 0 (List.length (Loki.data c)).
Proof.
  unfold Loki.order. intros ->. simpl.
  induction (seq 0 (List.length (Loki.data c))) as [|x l IH]; simpl; congruence.
Qed.

End Index.

(** ** Documents found by id *)

Section Matching.

Local Open Scope nat_scope.

Lemma pick_Some q l r rd :
  Loki.pick q l r = Some rd <->
  exists d, rd = (r, d) /\ l !! r = Some d /\ Loki._id d = q.
Proof.
  unfold Loki.pick. destruct (l !! r) as [d|]; [|split; [discriminate|]].
  - destruct (String.eqb (Loki._id d) q) eqn:E.
    + apply String.eqb_eq in E. split.
      * intros [= <-]. eauto.
      * intros (d' & -> & [= <-] & _). reflexivity.
    + apply String.eqb_neq in E. split; [discriminate|].
      intros (d' & _ & [= <-] & H). contradiction.
  - intros (d & _ & H & _). discriminate.
Qed.

Lemma pick_other q l r d :
  l !! r = Some d -> Loki._id d <> q -> Loki.pick q l r = None.
Proof.
  intros Hl Hne. unfold Loki.pick. rewrite Hl.
  apply String.eqb_neq in Hne. now rewrite Hne.
Qed.

Lemma pick_outside q l r : List.length l <= r -> Loki.pick q l r = None.
Proof. intros H. unfold Loki.pick. now rewrite lookup_ge_None_2. Qed.

Lemma matching_elem q c r d :
  (r, d) ∈ Loki.matching q c <-> Loki.data c !! r = Some d /\ Loki._id d = q.
Proof.
  unfold Loki.matching. rewrite list_elem_of_omap. split.
  - intros (x & _ & H). apply pick_Some in H as (d' & [= -> ->] & H). exact H.
  - intros [Hl Hid]. exists r. split.
    + apply order_elem. right. eapply lookup_lt_Some, Hl.
    + apply pick_Some. eauto.
Qed.

Lemma matching_first q c r d rest :
  Loki.matching q c = (r, d) :: rest ->
  Loki.data c !! r = Some d /\ Loki._id d = q.
Proof. intros H. apply matching_elem. rewrite H. constructor. Qed.

Lemma matching_nil q c :
  Loki.matching q c = [] <-> q ∉ (Loki._id <$> Loki.data c).
Proof.
  split.
  - intros H Hq. apply list_elem_of_fmap in Hq as (d & -> & Hd).
    apply list_elem_of_lookup in Hd as [r Hr].
    assert (Hin : (r, d) ∈ Loki.matching (Loki._id d) c) by now apply matching_elem.
    rewrite H in Hin. inversion Hin.
  - intros H. destruct (Loki.matching q c) as [|[r d] rest] eqn:E; [reflexivity|].
    destruct (matching_first _ _ _ _ _ E) as [Hl Hid]. exfalso. apply H.
    apply list_elem_of_fmap. exists d. split; [auto|].
    apply list_elem_of_lookup. eauto.
Qed.

(** After an insert, the new document comes first among the documents of
    its id, and nothing else changes. *)
Lemma matching_insert q c d :
  Loki.matching q
    (Loki.with_front (List.length (Loki.data c) :: Loki.front c)
       (Loki.with_data (Loki.data c ++ [d]) c)) =
  (if String.eqb (Loki._id d) q then [(List.length (Loki.data c), d)] else []) ++
  Loki.matching q c.
Proof.
  unfold Loki.matching.
  rewrite (order_front (Loki.with_data (Loki.data c ++ [d]) c)
             (Loki.with_front (List.length (Loki.data c) :: Loki.front c)
                (Loki.with_data (Loki.data c ++ [d]) c))
             (List.length (Loki.data c)) eq_refl eq_refl).
  rewrite (order_snoc c (Loki.with_data (Loki.data c ++ [d]) c) eq_refl)
    by (simpl; rewrite length_app; simpl; lia).
  simpl Loki.data. rewrite omap_cons.
  assert (Hrest : omap (Loki.pick q (Loki.data c ++ [d]))
            (List.filter (fun y => negb (Nat.eqb y (List.length (Loki.data c))))
               (Loki.order c ++
                (if existsb (Nat.eqb (List.length (Loki.data c))) (Loki.front c)
                 then [] else [List.length (Loki.data c)]))) =
          omap (Loki.pick q (Loki.data c)) (Loki.order c)).
  { rewrite List.filter_app.
    replace (List.filter _ (if existsb _ _ then [] else [_])) with (@nil nat)
      by (destruct (existsb _ _); simpl; [|rewrite Nat.eqb_refl]; reflexivity).
    rewrite app_nil_r.
    rewrite (omap_same (Loki.pick q (Loki.data c))).
    - apply omap_filter_ne, pick_outside. lia.
    - intros x Hx. apply filter_ne_elem in Hx as [_ Hx]. unfold Loki.pick.
      destruct (decide (x < List.length (Loki.data c))) as [Hlt|Hge].
      + now rewrite lookup_app_l.
      + rewrite !lookup_ge_None_2; [reflexivity | lia |].
        rewrite length_app. simpl. lia. }
  rewrite Hrest. unfold Loki.pick at 1.
  rewrite lookup_app_r, Nat.sub_diag by lia. simpl.
  now destruct (String.eqb (Loki._id d) q).
Qed.

(** After an update, the updated document comes first among the
    documents of its id, and the documents of other ids are found as
    before. *)
Lemma matching_update q c r d d' :
  Loki.data c !! r = Some d ->
  Loki._id d' = Loki._id d ->
  Loki.matching q
    (Loki.with_front (r :: Loki.front c)
       (Loki.with_data (<[r := d']> (Loki.data c)) c)) =
  if String.eqb (Loki._id d) q
  then (r, d') ::
       omap (Loki.pick q (Loki.data c))
         (List.filter (fun y => negb (Nat.eqb y r)) (Loki.order c))
  else Loki.matching q c.
Proof.
  intros Hl Hid. unfold Loki.matching.
  rewrite (order_front c
             (Loki.with_front (r :: Loki.front c)
                (Loki.with_data (<[r := d']> (Loki.data c)) c))
             r eq_refl) by (simpl; apply length_insert).
  simpl Loki.data. rewrite omap_cons.
  assert (Hrest : omap (Loki.pick q (<[r := d']> (Loki.data c)))
            (List.filter (fun y => negb (Nat.eqb y r)) (Loki.order c)) =
          omap (Loki.pick q (Loki.data c))
            (List.filter (fun y => negb (Nat.eqb y r)) (Loki.order c))).
  { apply omap_same. intros x Hx. apply filter_ne_elem in Hx as [_ Hx].
    unfold Loki.pick. rewrite list_lookup_insert_ne; [reflexivity | congruence]. }
  rewrite Hrest. unfold Loki.pick at 1.
  rewrite list_lookup_insert_eq by (eapply lookup_lt_Some, Hl). rewrite Hid.
  destruct (String.eqb (Loki._id d) q) eqn:E; [reflexivity|].
  apply omap_filter_ne. apply (pick_other q _ r d Hl). now apply String.eqb_neq.
Qed.

End Matching.

(** ** Removing by id *)

Section Removing.

Local Open Scope nat_scope.

Lemma remove_id_elem q l d :
  d ∈ Loki.remove_id q l <-> d ∈ l /\ Loki._id d <> q.
Proof.
  induction l as [|d0 l IH]; simpl.
  - split; [intros H; inversion H | intros [H _]; inversion H].
  - destruct (String.eqb (Loki._id d0) q) eqn:E.
    + apply String.eqb_eq in E. rewrite IH, elem_of_cons.
      split; [tauto | intros [[->|H] Hne]; [congruence | tauto]].
    + apply String.eqb_neq in E. rewrite !elem_of_cons, IH.
      split; [intros [->|[H Hne]]; auto | tauto].
Qed.

Lemma remove_id_absent q l :
  q ∉ (Loki._id <$> l) -> Loki.remove_id q l = l.
Proof.
  induction l as [|d0 l IH]; [reflexivity|].
  rewrite fmap_cons, not_elem_of_cons. intros [Hne H]. simpl.
  destruct (String.eqb (Loki._id d0) q) eqn:E.
  - apply String.eqb_eq in E. congruence.
  - now rewrite IH.
Qed.

Lemma remove_id_gone q l : q ∉ (Loki._id <$> Loki.remove_id q l).
Proof.
  intros H. apply list_elem_of_fmap in H as (d & -> & Hd).
  apply remove_id_elem in Hd as [_ Hd]. now apply Hd.
Qed.

Lemma remove_id_app q l l' :
  Loki.remove_id q (l ++ l') = Loki.remove_id q l ++ Loki.remove_id q l'.
Proof.
  induction l as [|d l IH]; simpl; [reflexivity|].
  destruct (String.eqb (Loki._id d) q); simpl; now rewrite IH.
Qed.

Lemma remove_id_insert q l r d d' :
  l !! r = Some d -> Loki._id d = q -> Loki._id d' = q ->
  Loki.remove_id q (<[r := d']> l) = Loki.remove_id q l.
Proof.
  revert r. induction l as [|d0 l IH]; intros r Hl Hd Hd'; [discriminate|].
  destruct r as [|r]; simpl in *.
  - injection Hl as ->. apply String.eqb_eq in Hd, Hd'. now rewrite Hd, Hd'.
  - rewrite (IH _ Hl Hd Hd'). reflexivity.
Qed.

Lemma remove_id_NoDup q l :
  NoDup (Loki._id <$> l) -> NoDup (Loki._id <$> Loki.remove_id q l).
Proof.
  induction l as [|d l IH]; simpl; [auto|].
  rewrite NoDup_cons. intros [Hd Hl].
  destruct (String.eqb (Loki._id d) q); [auto|].
  rewrite fmap_cons. apply NoDup_cons. split; [|auto].
  intros H. apply Hd. apply list_elem_of_fmap in H as (d' & -> & H').
  apply remove_id_elem in H' as [H' _]. apply list_elem_of_fmap. eauto.
Qed.

Lemma pick_NoDup q l (L : list nat) : NoDup L -> NoDup (omap (Loki.pick q l) L).
Proof.
  induction 1 as [|x L Hx _ IH]; [constructor|].
  rewrite omap_cons. destruct (Loki.pick q l x) as [rd|] eqn:E; [|exact IH].
  constructor; [|exact IH]. intros H.
  apply list_elem_of_omap in H as (y & Hy & E').
  apply pick_Some in E as (d & -> & _). apply pick_Some in E' as (d' & [= -> _] & _).
  contradiction.
Qed.

Lemma scan_length q l :
  List.length (omap (Loki.pick q l) (seq 0 (List.length l))) +
  List.length (Loki.remove_id q l) = List.length l.
Proof.
  induction l as [|d l IH] using rev_ind; [reflexivity|].
  rewrite length_app. simpl List.length at 1. rewrite Nat.add_1_r, seq_S, omap_app.
  rewrite (omap_same (Loki.pick q l)).
  - rewrite remove_id_app, !length_app. simpl. unfold Loki.pick at 2.
    rewrite lookup_app_r, Nat.sub_diag by lia. simpl.
    destruct (String.eqb (Loki._id d) q); simpl; lia.
  - intros x Hx. apply elem_of_seq in Hx. unfold Loki.pick.
    rewrite lookup_app_l; [reflexivity | lia].
Qed.

(** [find] yields each document carrying the id once. *)
Lemma matching_length q c :
  List.length (Loki.matching q c) + List.length (Loki.remove_id q (Loki.data c)) =
  List.length (Loki.data c).
Proof.
  pose proof (scan_length q (Loki.data c)) as H.
  assert (E : List.length (Loki.matching q c) =
              List.length (Loki.matching q (Loki.with_front [] c))).
  2: { unfold Loki.matching in E at 2.
       rewrite (order_sorted (Loki.with_front [] c) eq_refl) in E.
       simpl in E. lia. }
  apply Permutation_length, NoDup_Permutation.
  - apply pick_NoDup, order_NoDup.
  - apply pick_NoDup, order_NoDup.
  - intros [r d]. now rewrite !matching_elem.
Qed.

End Removing.

(** ** What each method does to a loaded store *)

Section Methods.

Import ConnectLoki.

#[local] Arguments Loki.matching : simpl never.

Ltac ready self H :=
  destruct self; simpl in H; subst;
  unfold matches, records, with_collection in *; simpl in *.

Lemma get_unset self _id :
  collection self = None -> get _id self = (JS.Normal [JS.Null], self).
Proof. intros H. unfold get, JS.bind, no_collection. now rewrite H. Qed.

Lemma get_loaded self c _id :
  collection self = Some c ->
  get _id self =
  (JS.Normal match matches _id self with
             | (_, d) :: _ =>
                 if JS.truthy (Loki.session d)
                 then [JS.Null; Loki.session d] else [JS.Null]
             | [] => [JS.Null]
             end, self).
Proof.
  intros H. ready self H. destruct c as [n l ix f t].
  unfold get, JS.bind, no_collection, on_collection, Loki.find; simpl.
  destruct (Loki.matching _id _) as [|[r d] rest]; [reflexivity|].
  now destruct (JS.truthy (Loki.session d)).
Qed.

Lemma set_replaces self c _id sess now r d rest :
  collection self = Some c ->
  matches _id self = (r, d) :: rest ->
  JS.truthy (Loki.session d) = true ->
  set _id sess now self =
  (JS.Normal [JS.Null],
   with_collection
     (Some (Loki.with_front (r :: Loki.front c)
              (Loki.with_data (<[r := replaced sess now d]> (Loki.data c)) c)))
     self).
Proof.
  intros H Hm Ht. ready self H.
  destruct (matching_first _ _ _ _ _ Hm) as [Hl _].
  assert (Hr : (r < List.length (Loki.data c))%nat) by (eapply lookup_lt_Some; eauto).
  destruct c as [n l ix f t]; simpl in *.
  unfold set, JS.bind, on_collection, assign, Loki.find, Loki.assign, Loki.update; simpl.
  rewrite Hm, Ht; simpl. rewrite Hl; simpl.
  rewrite list_lookup_insert_eq by assumption; simpl.
  rewrite list_insert_insert_eq.
  rewrite list_lookup_insert_eq by assumption; simpl.
  now rewrite list_insert_insert_eq.
Qed.

Lemma set_inserts self c _id sess now :
  collection self = Some c ->
  first_session_truthy _id self = false \/ matches _id self = [] ->
  set _id sess now self =
  (JS.Normal [JS.Null],
   with_collection
     (Some (Loki.with_front (List.length (Loki.data c) :: Loki.front c)
              (Loki.with_data (Loki.data c ++ [inserted _id sess now]) c)))
     self).
Proof.
  intros H Hm. unfold first_session_truthy in Hm. ready self H.
  destruct c as [n l ix f t]; simpl in *.
  unfold set, JS.bind, on_collection, Loki.find, Loki.insert; simpl.
  destruct (Loki.matching _id _) as [|[r d] rest]; [reflexivity|].
  destruct Hm as [Hm|Hm]; [|discriminate]. now rewrite Hm.
Qed.

Lemma touch_refreshes self c _id sess now r d rest :
  collection self = Some c ->
  matches _id self = (r, d) :: rest ->
  JS.truthy (Loki.updatedAt d) = true ->
  touch _id sess now self =
  (JS.Normal [],
   with_collection
     (Some (Loki.with_front (r :: Loki.front c)
              (Loki.with_data (<[r := touched now d]> (Loki.data c)) c)))
     self).
Proof.
  intros H Hm Ht. ready self H.
  destruct (matching_first _ _ _ _ _ Hm) as [Hl _].
  assert (Hr : (r < List.length (Loki.data c))%nat) by (eapply lookup_lt_Some; eauto).
  destruct c as [n l ix f t]; simpl in *.
  unfold touch, JS.bind, on_collection, assign, Loki.find, Loki.assign, Loki.update; simpl.
  rewrite Hm, Ht; simpl. rewrite Hl; simpl.
  rewrite list_lookup_insert_eq by assumption; simpl.
  now rewrite list_insert_insert_eq.
Qed.

Lemma touch_skips self c _id sess now :
  collection self = Some c ->
  matches _id self = [] ->
  touch _id sess now self = (JS.Normal [], self).
Proof.
  intros H Hm. ready self H. destruct c as [n l ix f t]; simpl in *.
  unfold touch, JS.bind, on_collection, Loki.find; simpl. now rewrite Hm.
Qed.

Lemma touch_ignores self c _id sess now r d rest :
  collection self = Some c ->
  matches _id self = (r, d) :: rest ->
  JS.truthy (Loki.updatedAt d) = false ->
  touch _id sess now self = (JS.Normal [], self).
Proof.
  intros H Hm Ht. ready self H. destruct c as [n l ix f t]; simpl in *.
  unfold touch, JS.bind, on_collection, Loki.find; simpl. now rewrite Hm, Ht.
Qed.

Lemma destroy_loaded self c _id :
  collection self = Some c ->
  destroy _id self =
  (JS.Normal [JS.Null],
   with_collection
     (Some (Loki.with_front [] (Loki.with_data (Loki.remove_id _id (Loki.data c)) c)))
     self).
Proof. intros H. now ready self H. Qed.

Lemma clear_loaded self c :
  collection self = Some c ->
  clear self =
  (JS.Normal [JS.Null],
   with_collection (Some (Loki.with_front [] (Loki.with_data [] c))) self).
Proof. intros H. now ready self H. Qed.

Lemma length_loaded self c :
  collection self = Some c ->
  length self =
  (JS.Normal [JS.Null; JS.Number (Z.of_nat (List.length (records self)))], self).
Proof. intros H. ready self H. now destruct c. Qed.

Lemma records_loaded self c : collection self = Some c -> records self = Loki.data c.
Proof. intros H. unfold records. now rewrite H. Qed.

Lemma matches_loaded self c q :
  collection self = Some c -> matches q self = Loki.matching q c.
Proof. intros H. unfold matches. now rewrite H. Qed.

Lemma with_collection_same self c :
  collection self = Some c -> with_collection (Some c) self = self.
Proof. intros H. destruct self. simpl in H. now subst. Qed.

(** On a store without a collection [find] has nothing to yield. *)
Lemma matches_absent self q :
  matches q self = [] <-> q ∉ ids self.
Proof.
  unfold matches, ids, records. destruct (collection self) as [c|].
  - apply matching_nil.
  - split; [intros _ H; inversion H | reflexivity].
Qed.

End Methods.

Section Calls.

Import ConnectLoki.

(** On a loaded store every method completes, calls back without an
    error, keeps the TTL settings of the collection, and leaves the
    documents in one of six shapes. *)
Lemma call_loaded now op self c :
  collection self = Some c ->
  exists args c',
    call now op self = (JS.Normal args, with_collection (Some c') self) /\
    no_error args = true /\
    Loki.ttl c' = Loki.ttl c /\
    (Loki.data c' = Loki.data c \/
     Loki.data c' = [] \/
     (exists i, Loki.data c' = Loki.remove_id i (Loki.data c)) \/
     (exists i v, Loki.data c' = Loki.data c ++ [inserted i v now]) \/
     (exists r d v, Loki.data c !! r = Some d /\
                    Loki.data c' = <[r := replaced v now d]> (Loki.data c)) \/
     (exists r d, Loki.data c !! r = Some d /\
                  Loki.data c' = <[r := touched now d]> (Loki.data c))).
Proof.
  intros Hc. destruct op as [i|i v|i| | |i v]; simpl.
  - eexists _, c. rewrite (get_loaded self c i Hc), (with_collection_same self c Hc).
    split; [reflexivity|]. split; [|split; [reflexivity | now left]].
    destruct (matches i self) as [|[r d] rest]; [reflexivity|].
    now destruct (JS.truthy (Loki.session d)).
  - destruct (matches i self) as [|[r d] rest] eqn:Hm.
    + eexists _, _. rewrite (set_inserts self c i v now Hc (or_intror Hm)).
      split; [reflexivity|]. split; [reflexivity|]. split; [reflexivity|].
      do 3 right. left. eauto.
    + destruct (JS.truthy (Loki.session d)) eqn:Ht.
      * eexists _, _. rewrite (set_replaces self c i v now r d rest Hc Hm Ht).
        split; [reflexivity|]. split; [reflexivity|]. split; [reflexivity|].
        do 4 right. left. exists r, d, v. split; [|reflexivity].
        rewrite (matches_loaded self c i Hc) in Hm.
        apply (matching_first _ _ _ _ _ Hm).
      * eexists _, _. rewrite (set_inserts self c i v now Hc).
        -- split; [reflexivity|]. split; [reflexivity|]. split; [reflexivity|].
           do 3 right. left. eauto.
        -- left. unfold first_session_truthy. now rewrite Hm.
  - eexists _, _. rewrite (destroy_loaded self c i Hc).
    split; [reflexivity|]. split; [reflexivity|]. split; [reflexivity|].
    do 2 right. left. eauto.
  - eexists _, _. rewrite (clear_loaded self c Hc).
    split; [reflexivity|]. split; [reflexivity|]. split; [reflexivity|].
    right. now left.
  - eexists _, c. rewrite (length_loaded self c Hc), (with_collection_same self c Hc).
    split; [reflexivity|]. split; [reflexivity|]. split; [reflexivity|]. now left.
  - destruct (matches i self) as [|[r d] rest] eqn:Hm.
    + eexists _, c.
      rewrite (touch_skips self c i v now Hc Hm), (with_collection_same self c Hc).
      split; [reflexivity|]. split; [reflexivity|]. split; [reflexivity|]. now left.
    + destruct (JS.truthy (Loki.updatedAt d)) eqn:Ht.
      * eexists _, _. rewrite (touch_refreshes self c i v now r d rest Hc Hm Ht).
        split; [reflexivity|]. split; [reflexivity|]. split; [reflexivity|].
        do 5 right. exists r, d. split; [|reflexivity].
        rewrite (matches_loaded self c i Hc) in Hm.
        apply (matching_first _ _ _ _ _ Hm).
      * eexists _, c.
        rewrite (touch_ignores self c i v now r d rest Hc Hm Ht),
          (with_collection_same self c Hc).
        split; [reflexivity|]. split; [reflexivity|]. split; [reflexivity|]. now left.
Qed.

(** Before the database has loaded, every method but [get] throws at its
    first use of the collection handle, without calling back. *)
Lemma call_unset now op self :
  collection self = None ->
  call now op self =
  (match op with
   | OpGet _ => JS.Normal [JS.Null]
   | _ => JS.Throw (JS.TypeError "Cannot read properties of undefined")
   end, self).
Proof.
  intros H. destruct op; simpl; [now apply get_unset| | | | |];
    unfold set, destroy, clear, length, touch, JS.bind, on_collection;
    now rewrite H.
Qed.

(** After a [set] on a loaded store, the first document [find] yields for
    the id carries the session just written; it is a new document at the
    end, or the document found first before, changed in place. *)
Lemma set_outcome self c _id sess now :
  collection self = Some c ->
  exists c' r d rest,
    set _id sess now self = (JS.Normal [JS.Null], with_collection (Some c') self) /\
    Loki.matching _id c' = (r, d) :: rest /\
    Loki.session d = sess /\
    Loki.updatedAt d = JS.Date now /\
    Loki._id d = _id /\
    Loki.data c' !! r = Some d /\
    (((matches _id self = [] \/ first_session_truthy _id self = false) /\
      Loki.data c' = Loki.data c ++ [d]) \/
     (exists d0 rest0,
        matches _id self = (r, d0) :: rest0 /\
        JS.truthy (Loki.session d0) = true /\
        Loki.data c !! r = Some d0 /\
        Loki._id d0 = _id /\
        Loki.data c' = <[r := d]> (Loki.data c))).
Proof.
  intros Hc.
  assert (Hins : first_session_truthy _id self = false \/ matches _id self = [] ->
    exists c' r d rest,
      set _id sess now self = (JS.Normal [JS.Null], with_collection (Some c') self) /\
      Loki.matching _id c' = (r, d) :: rest /\
      Loki.session d = sess /\ Loki.updatedAt d = JS.Date now /\
      Loki._id d = _id /\ Loki.data c' !! r = Some d /\
      (((matches _id self = [] \/ first_session_truthy _id self = false) /\
        Loki.data c' = Loki.data c ++ [d]) \/
       (exists d0 rest0,
          matches _id self = (r, d0) :: rest0 /\
          JS.truthy (Loki.session d0) = true /\
          Loki.data c !! r = Some d0 /\ Loki._id d0 = _id /\
          Loki.data c' = <[r := d]> (Loki.data c)))).
  { intros H. eexists _, (List.length (Loki.data c)), (inserted _id sess now), _.
    split; [apply (set_inserts self c _id sess now Hc H)|].
    split; [rewrite matching_insert; simpl; rewrite String.eqb_refl; reflexivity|].
    do 3 (split; [reflexivity|]). split.
    - simpl. rewrite lookup_app_r, Nat.sub_diag; [reflexivity | lia].
    - left. split; [tauto | reflexivity]. }
  destruct (matches _id self) as [|[r d0] rest0] eqn:Hm; [now apply Hins; right|].
  destruct (JS.truthy (Loki.session d0)) eqn:Ht.
  - rewrite (matches_loaded self c _id Hc) in Hm.
    destruct (matching_first _ _ _ _ _ Hm) as [Hl Hid].
    eexists _, r, (replaced sess now d0), _.
    split; [apply (set_replaces self c _id sess now r d0 rest0 Hc); auto;
            now rewrite (matches_loaded self c _id Hc)|].
    split; [rewrite (matching_update _id c r d0 (replaced sess now d0) Hl eq_refl);
            apply String.eqb_eq in Hid; simpl in Hid; rewrite Hid; reflexivity|].
    do 2 (split; [reflexivity|]). split; [exact Hid|]. split.
    + simpl. apply list_lookup_insert_eq. eapply lookup_lt_Some, Hl.
    + right. exists d0, rest0. auto.
  - apply Hins. left. unfold first_session_truthy. now rewrite Hm, Ht.
Qed.

End Calls.

(** ** The session-store contract *)

(** C6. [get(id)] reports not-found -- it calls back with a null error and
    no session -- whenever no record with that id is stored, and also
    whenever the database has not been loaded yet (the collection handle
    is unset): it then answers at once, leaving the store as it is. *)
Theorem get_not_found_when_absent_or_unloaded self _id :
  ConnectLoki.collection self = None \/ ConnectLoki.matches _id self = [] ->
  ConnectLoki.get _id self = (JS.Normal [JS.Null], self) /\
  ConnectLoki.not_found [JS.Null] = true.
Proof.
  intros H. split; [|reflexivity].
  destruct (ConnectLoki.collection self) as [c|] eqn:E.
  - destruct H as [H|H]; [discriminate|].
    rewrite (get_loaded self c _id E), H. reflexivity.
  - now apply get_unset.
Qed.

Lemma get_not_found_when_absent_or_unloaded_witness :
  ConnectLoki.get "A" (fst (ConnectLoki.LokiStore None)) =
    (JS.Normal [JS.Null], fst (ConnectLoki.LokiStore None)) /\
  ConnectLoki.get "A" ConnectLoki.fresh = (JS.Normal [JS.Null], ConnectLoki.fresh).
Proof.
  split.
  - apply (get_not_found_when_absent_or_unloaded (fst (ConnectLoki.LokiStore None)) "A").
    left. reflexivity.
  - apply (get_not_found_when_absent_or_unloaded ConnectLoki.fresh "A").
    right. reflexivity.
Defined.

(** C10. When the record [find] yields first for an id carries a falsy
    session (as after [set(id, null)] or [set(id, '')]), [get(id)]
    reports not-found although that record is still stored and
    [length()] counts it. *)
Theorem get_hides_falsy_session self c _id r d rest :
  ConnectLoki.collection self = Some c ->
  ConnectLoki.matches _id self = (r, d) :: rest ->
  JS.truthy (Loki.session d) = false ->
  ConnectLoki.get _id self = (JS.Normal [JS.Null], self) /\
  ConnectLoki.records self !! r = Some d /\
  Loki._id d = _id /\
  ConnectLoki.length self =
    (JS.Normal [JS.Null; JS.Number (Z.of_nat (List.length (ConnectLoki.records self)))],
     self) /\
  (0 < List.length (ConnectLoki.records self))%nat.
Proof.
  intros Hc Hm Hf.
  pose proof Hm as Hm'. rewrite (matches_loaded self c _id Hc) in Hm'.
  destruct (matching_first _ _ _ _ _ Hm') as [Hl Hid].
  rewrite <- (records_loaded self c Hc) in Hl.
  repeat split; auto.
  - rewrite (get_loaded self c _id Hc), Hm, Hf. reflexivity.
  - apply (length_loaded self c Hc).
  - apply lookup_lt_Some in Hl. lia.
Qed.

Lemma get_hides_falsy_session_witness :
  let self := snd (ConnectLoki.set "A" JS.Null 0 ConnectLoki.fresh) in
  let self' := snd (ConnectLoki.set "B" (JS.String "") 5 self) in
  ConnectLoki.get "A" self = (JS.Normal [JS.Null], self) /\
  ConnectLoki.length self = (JS.Normal [JS.Null; JS.Number 1], self) /\
  ConnectLoki.get "B" self' = (JS.Normal [JS.Null], self') /\
  ConnectLoki.length self' = (JS.Normal [JS.Null; JS.Number 2], self').
Proof.
  intros self self'.
  destruct (get_hides_falsy_session self _
              "A" 0%nat (ConnectLoki.inserted "A" JS.Null 0) []
              eq_refl eq_refl eq_refl) as (Hg & _ & _ & Hn & _).
  destruct (get_hides_falsy_session self' _
              "B" 1%nat (ConnectLoki.inserted "B" (JS.String "") 5) []
              eq_refl eq_refl eq_refl) as (Hg' & _ & _ & Hn' & _).
  repeat split; assumption.
Defined.

(** C1. On a loaded store, [touch(id, payload)] of an id whose record has
    its [updatedAt] set (as every record written by [set] has) replaces
    that record's [updatedAt] by the current time and leaves its id, its
    session and every other record alone, so [get(id)] still yields the
    old session and never [payload]; when no record has the id, [touch]
    changes nothing and creates no record. *)
Theorem touch_refreshes_only_updatedAt self c _id payload now :
  ConnectLoki.collection self = Some c ->
  (forall r d rest,
      ConnectLoki.matches _id self = (r, d) :: rest ->
      JS.truthy (Loki.updatedAt d) = true ->
      let self' := snd (ConnectLoki.touch _id payload now self) in
      fst (ConnectLoki.touch _id payload now self) = JS.Normal [] /\
      ConnectLoki.records self' =
        <[r := ConnectLoki.touched now d]> (ConnectLoki.records self) /\
      Loki._id (ConnectLoki.touched now d) = Loki._id d /\
      Loki.session (ConnectLoki.touched now d) = Loki.session d /\
      Loki.updatedAt (ConnectLoki.touched now d) = JS.Date now /\
      fst (ConnectLoki.get _id self') =
        JS.Normal (if JS.truthy (Loki.session d)
                   then [JS.Null; Loki.session d] else [JS.Null])) /\
  (ConnectLoki.matches _id self = [] ->
   ConnectLoki.touch _id payload now self = (JS.Normal [], self)).
Proof.
  intros Hc. split.
  - intros r d rest Hm Ht self'. subst self'.
    rewrite (touch_refreshes self c _id payload now r d rest Hc Hm Ht). simpl.
    rewrite (matches_loaded self c _id Hc) in Hm.
    destruct (matching_first _ _ _ _ _ Hm) as [Hl Hid].
    split; [reflexivity|]. split.
    { unfold ConnectLoki.records at 1. simpl. now rewrite (records_loaded self c Hc). }
    do 3 (split; [reflexivity|]).
    erewrite get_loaded by reflexivity. simpl.
    unfold ConnectLoki.matches. simpl.
    rewrite (matching_update _id c r d (ConnectLoki.touched now d) Hl eq_refl).
    apply String.eqb_eq in Hid. rewrite Hid. reflexivity.
  - intros Hm. now apply (touch_skips self c).
Qed.

Lemma touch_refreshes_only_updatedAt_witness :
  let B := JS.Object [("user", JS.String "bob")] in
  let self := snd (ConnectLoki.set "A" B 1
                (snd (ConnectLoki.set "A" (JS.String "") 0 ConnectLoki.fresh))) in
  let self' := snd (ConnectLoki.touch "A" (JS.String "new") 9 self) in
  Loki.updatedAt <$> ConnectLoki.records self' = [JS.Date 0; JS.Date 9] /\
  fst (ConnectLoki.get "A" self') = JS.Normal [JS.Null; B] /\
  ConnectLoki.touch "Z" (JS.String "new") 9 self = (JS.Normal [], self).
Proof.
  intros B self self'.
  destruct (touch_refreshes_only_updatedAt self _ "A" (JS.String "new") 9 eq_refl)
    as [Hpresent _].
  destruct (touch_refreshes_only_updatedAt self _ "Z" (JS.String "new") 9 eq_refl)
    as [_ Habsent].
  destruct (Hpresent 1%nat (ConnectLoki.inserted "A" B 1)
              [(0%nat, ConnectLoki.inserted "A" (JS.String "") 0)]
              eq_refl eq_refl) as (_ & Hr & _ & _ & _ & Hg).
  split; [|split].
  - subst self'. rewrite Hr. reflexivity.
  - exact Hg.
  - exact (Habsent eq_refl).
Defined.

(** C8. On a loaded store [destroy(id)] calls back with a null error
    whether or not a record has the id; afterwards no record has the id
    and all records with other ids are kept; when no record had the id
    the records, and so [length()], are unchanged (and so is the whole
    store when its index was in sorted order: the batch removal sorts the
    index anew even when it removes nothing); and a second [destroy(id)]
    gives the same answer and changes nothing more. *)
Theorem destroy_idempotent self c _id :
  ConnectLoki.collection self = Some c ->
  let self' := snd (ConnectLoki.destroy _id self) in
  fst (ConnectLoki.destroy _id self) = JS.Normal [JS.Null] /\
  ConnectLoki.matches _id self' = [] /\
  (forall d, d ∈ ConnectLoki.records self' <->
             d ∈ ConnectLoki.records self /\ Loki._id d <> _id) /\
  (ConnectLoki.matches _id self = [] ->
   ConnectLoki.records self' = ConnectLoki.records self /\
   fst (ConnectLoki.length self') = fst (ConnectLoki.length self) /\
   (Loki.front c = [] -> self' = self)) /\
  ConnectLoki.destroy _id self' = (JS.Normal [JS.Null], self').
Proof.
  intros Hc self'. subst self'.
  rewrite (destroy_loaded self c _id Hc). cbn [fst snd].
  set (c' := Loki.with_front [] (Loki.with_data (Loki.remove_id _id (Loki.data c)) c)).
  set (self' := ConnectLoki.with_collection (Some c') self).
  assert (Hc' : ConnectLoki.collection self' = Some c') by reflexivity.
  assert (Hr' : ConnectLoki.records self' = Loki.remove_id _id (ConnectLoki.records self))
    by now rewrite (records_loaded self c Hc).
  split; [reflexivity|]. split; [|split; [|split]].
  - apply matches_absent. unfold ConnectLoki.ids. rewrite Hr'. apply remove_id_gone.
  - intros d. rewrite Hr'. apply remove_id_elem.
  - intros H. apply matches_absent in H.
    assert (E : ConnectLoki.records self' = ConnectLoki.records self)
      by (rewrite Hr'; now apply remove_id_absent).
    split; [exact E|]. split.
    + now rewrite (length_loaded _ _ Hc'), (length_loaded _ _ Hc), E.
    + intros Hf. subst self' c'.
      rewrite (remove_id_absent _id (Loki.data c))
        by (now rewrite <- (records_loaded self c Hc)).
      rewrite <- (with_collection_same self c Hc) at 2. do 2 f_equal.
      destruct c. simpl in Hf. now subst.
  - rewrite (destroy_loaded self' c' _id Hc'). f_equal.
    subst self' c'. destruct self. simpl.
    rewrite (remove_id_absent _id (Loki.remove_id _id (Loki.data c)));
      [reflexivity | apply remove_id_gone].
Qed.

Lemma destroy_idempotent_witness :
  let self := snd (ConnectLoki.set "A" (JS.String "x") 0 ConnectLoki.fresh) in
  fst (ConnectLoki.destroy "A" self) = JS.Normal [JS.Null] /\
  fst (ConnectLoki.destroy "Z" self) = JS.Normal [JS.Null] /\
  ConnectLoki.records (snd (ConnectLoki.destroy "Z" self)) = ConnectLoki.records self /\
  ConnectLoki.destroy "A" (snd (ConnectLoki.destroy "A" self)) =
    (JS.Normal [JS.Null], snd (ConnectLoki.destroy "A" self)).
Proof.
  intros self.
  pose proof (destroy_idempotent self _ "A" eq_refl) as (Ha & _ & _ & _ & Hd).
  pose proof (destroy_idempotent self _ "Z" eq_refl) as (Hz & _ & _ & Hn & _).
  exact (conj Ha (conj Hz (conj (proj1 (Hn eq_refl)) Hd))).
Defined.

(** ** Writing a session *)

(** C4, as the code has it. On a loaded store, for every id and every
    truthy payload, [set(id, payload)] followed by [get(id)] yields
    exactly [payload], the value handed to [set], unchanged: the record
    [set] wrote is the one [find] yields first. *)
Theorem set_then_get self c _id payload now :
  ConnectLoki.collection self = Some c ->
  JS.truthy payload = true ->
  fst (ConnectLoki.set _id payload now self) = JS.Normal [JS.Null] /\
  fst (ConnectLoki.get _id (snd (ConnectLoki.set _id payload now self))) =
    JS.Normal [JS.Null; payload].
Proof.
  intros Hc Ht.
  destruct (set_outcome self c _id payload now Hc)
    as (c' & r & d & rest & -> & Hm' & Hd & _).
  split; [reflexivity|]. cbn [fst snd].
  erewrite get_loaded by reflexivity. cbn [fst].
  unfold ConnectLoki.matches. cbn. now rewrite Hm', Hd, Ht.
Qed.

Lemma set_then_get_witness :
  let B := JS.Object [("user", JS.String "bob")] in
  let self := snd (ConnectLoki.set "A" (JS.String "") 0 ConnectLoki.fresh) in
  fst (ConnectLoki.get "A" (snd (ConnectLoki.set "A" B 1 self))) =
    JS.Normal [JS.Null; B].
Proof.
  intros B self.
  exact (proj2 (set_then_get self _ "A" B 1 eq_refl eq_refl)).
Defined.

(** C4 as stated fails for a falsy payload: after [set('A', '')] on an
    empty loaded store, [get('A')] calls back with no session. *)
Lemma set_then_get_empty_string :
  fst (ConnectLoki.get "A"
         (snd (ConnectLoki.set "A" (JS.String "") 0 ConnectLoki.fresh))) =
    JS.Normal [JS.Null] /\
  fst (ConnectLoki.get "A"
         (snd (ConnectLoki.set "A" (JS.String "") 0 ConnectLoki.fresh))) <>
    JS.Normal [JS.Null; JS.String ""].
Proof. split; [reflexivity | discriminate]. Qed.

(** C5, as the code has it. On a loaded store, for a truthy [p1],
    [set(id, p1)] followed by [set(id, p2)] replaces the record in place:
    [length()] answers after the second [set] what it answered after the
    first, the list of stored ids is the same, and [get(id)] yields [p2]
    when [p2] is truthy (and reports not-found when it is falsy). When
    the ids were pairwise distinct and the record [find] yields first for
    the id, if any, carried a truthy session, the ids stay pairwise
    distinct through both calls. *)
Theorem set_twice_replaces_in_place self c _id p1 p2 t1 t2 :
  ConnectLoki.collection self = Some c ->
  JS.truthy p1 = true ->
  let self1 := snd (ConnectLoki.set _id p1 t1 self) in
  let self2 := snd (ConnectLoki.set _id p2 t2 self1) in
  fst (ConnectLoki.length self2) = fst (ConnectLoki.length self1) /\
  ConnectLoki.ids self2 = ConnectLoki.ids self1 /\
  (NoDup (ConnectLoki.ids self) ->
   ConnectLoki.first_session_truthy _id self = true ->
   NoDup (ConnectLoki.ids self1) /\ NoDup (ConnectLoki.ids self2)) /\
  fst (ConnectLoki.get _id self2) =
    JS.Normal (if JS.truthy p2 then [JS.Null; p2] else [JS.Null]).
Proof.
  intros Hc Ht self1 self2.
  destruct (set_outcome self c _id p1 t1 Hc)
    as (c1 & r1 & d1 & rest1 & Hs1 & Hm1 & Hd1 & _ & _ & _ & Hshape1).
  assert (E1 : self1 = ConnectLoki.with_collection (Some c1) self)
    by (subst self1; now rewrite Hs1).
  assert (Hc1 : ConnectLoki.collection self1 = Some c1) by now rewrite E1.
  assert (Hf1 : ConnectLoki.matches _id self1 = (r1, d1) :: rest1)
    by now rewrite (matches_loaded self1 c1 _id Hc1).
  destruct (set_outcome self1 c1 _id p2 t2 Hc1)
    as (c2 & r2 & d2 & rest2 & Hs2 & Hm2 & Hd2 & _ & Hid2 & _ & Hshape2).
  assert (E2 : self2 = ConnectLoki.with_collection (Some c2) self1)
    by (subst self2; now rewrite Hs2).
  assert (Hc2 : ConnectLoki.collection self2 = Some c2) by now rewrite E2.
  destruct Hshape2 as [[[Hm|Hm] _]|(d0 & rest0 & Hm & _ & Hl & Hid0 & Hdata)].
  { rewrite Hf1 in Hm. discriminate. }
  { unfold ConnectLoki.first_session_truthy in Hm.
    rewrite Hf1, Hd1, Ht in Hm. discriminate. }
  assert (Hids : ConnectLoki.ids self2 = ConnectLoki.ids self1).
  { unfold ConnectLoki.ids.
    rewrite (records_loaded _ _ Hc2), (records_loaded _ _ Hc1), Hdata.
    rewrite list_fmap_insert. apply list_insert_id.
    rewrite list_lookup_fmap, Hl. simpl. congruence. }
  split; [|split; [exact Hids|split]].
  - rewrite (length_loaded _ _ Hc2), (length_loaded _ _ Hc1). cbn [fst].
    rewrite (records_loaded _ _ Hc2), (records_loaded _ _ Hc1), Hdata.
    now rewrite length_insert.
  - intros Hu Hf.
    assert (Hu1 : NoDup (ConnectLoki.ids self1)).
    { unfold ConnectLoki.ids in *.
      rewrite (records_loaded _ _ Hc1). rewrite (records_loaded _ _ Hc) in Hu.
      destruct Hshape1 as [[Hm0 ->]|(d00 & rest00 & _ & _ & Hl0 & Hid00 & ->)].
      - assert (Hnil : ConnectLoki.matches _id self = [])
          by (destruct Hm0; [assumption | congruence]).
        apply matches_absent in Hnil. unfold ConnectLoki.ids in Hnil.
        rewrite (records_loaded _ _ Hc) in Hnil.
        destruct (matching_first _ _ _ _ _ Hm1) as [_ Hid1].
        rewrite fmap_app. apply NoDup_app. split; [exact Hu|]. split.
        + intros x Hx Hx'. apply list_elem_of_singleton in Hx'. subst x.
          simpl in Hx. now rewrite Hid1 in Hx.
        + apply NoDup_singleton.
      - destruct (matching_first _ _ _ _ _ Hm1) as [_ Hid1].
        rewrite list_fmap_insert, list_insert_id; [exact Hu|].
        rewrite list_lookup_fmap, Hl0. simpl. congruence. }
    split; [exact Hu1 | now rewrite Hids].
  - rewrite (get_loaded _ _ _id Hc2), (matches_loaded _ _ _id Hc2), Hm2, Hd2.
    reflexivity.
Qed.

Lemma set_twice_replaces_in_place_witness :
  let B1 := JS.Object [("user", JS.String "bob")] in
  let B2 := JS.Object [("user", JS.String "bob"); ("views", JS.Number 2)] in
  let self1 := snd (ConnectLoki.set "A" B1 0 ConnectLoki.fresh) in
  let self2 := snd (ConnectLoki.set "A" B2 5 self1) in
  fst (ConnectLoki.length self2) = fst (ConnectLoki.length self1) /\
  fst (ConnectLoki.get "A" self2) = JS.Normal [JS.Null; B2].
Proof.
  intros B1 B2 self1 self2.
  pose proof (set_twice_replaces_in_place ConnectLoki.fresh _
                "A" B1 B2 0 5 eq_refl eq_refl) as (Hn & _ & _ & Hg).
  exact (conj Hn Hg).
Defined.

(** C5 as stated fails when the stored session is falsy: after
    [set('A', '')] a second [set('A', p2)] inserts a second record with
    the same id, and [length()] grows from 1 to 2. *)
Lemma set_twice_after_empty_string_duplicates :
  let B := JS.Object [("user", JS.String "bob")] in
  let self1 := snd (ConnectLoki.set "A" (JS.String "") 0 ConnectLoki.fresh) in
  let self2 := snd (ConnectLoki.set "A" B 5 self1) in
  fst (ConnectLoki.length self1) = JS.Normal [JS.Null; JS.Number 1] /\
  fst (ConnectLoki.length self2) = JS.Normal [JS.Null; JS.Number 2] /\
  fst (ConnectLoki.length self2) <> fst (ConnectLoki.length self1) /\
  ConnectLoki.ids self2 = ["A"; "A"].
Proof. repeat split; discriminate. Qed.

(** ** Invariants of a store's history *)

Section Invariants.

Import ConnectLoki.

(** No method changes the TTL settings of the collection. *)
Lemma call_keeps_sweeping now op self :
  sweeping (snd (call now op self)) = sweeping self.
Proof.
  destruct (collection self) as [c|] eqn:Hc.
  - destruct (call_loaded now op self c Hc) as (args & c' & -> & _ & Ht & _).
    unfold sweeping. simpl. now rewrite Hc, Ht.
  - now rewrite (call_unset now op self Hc).
Qed.

(** The collection the store obtains when the database has loaded has no
    sweep timer: the store passes Loki a sweep interval but no document
    age. *)
Lemma loaded_not_sweeping saved self : sweeping (loaded saved self) = false.
Proof. destruct saved; reflexivity. Qed.

Lemma timers_idle now self :
  sweeping self = false -> step now Timers self = self.
Proof.
  destruct self as [? ? ? ? ? ? [c|] ?]; [|reflexivity].
  unfold sweeping, step, Loki.timers_fire; simpl. now intros ->.
Qed.

Lemma step_keeps_not_sweeping now e self :
  sweeping self = false -> sweeping (step now e self) = false.
Proof.
  intros H. destruct e as [op|saved|]; simpl.
  - now rewrite call_keeps_sweeping.
  - apply loaded_not_sweeping.
  - change (sweeping (step now Timers self) = false). now rewrite timers_idle.
Qed.

(** X14. Whatever the options a store is built with and whatever happens
    to it afterwards, no sweep timer is ever registered on its
    collection. *)
Lemma never_sweeping history options :
  sweeping (run history (fst (LokiStore options))) = false.
Proof.
  assert (H : sweeping (fst (LokiStore options)) = false).
  { unfold LokiStore. now destruct (JS.truthy _). }
  revert H. generalize (fst (LokiStore options)).
  induction history as [|[now e] history IH]; intros self H; [exact H|].
  apply IH. now apply step_keeps_not_sweeping.
Qed.

Lemma run_timers_idle history self :
  sweeping self = false ->
  Forall (fun te => snd te = Timers) history ->
  run history self = self.
Proof.
  intros Hs. induction 1 as [|[now e] history He _ IH]; [reflexivity|].
  simpl in He. subst e. unfold run. simpl.
  change (run history (step now Timers self) = self).
  now rewrite timers_idle.
Qed.

(** [set] on a loaded store leaves a record with the id and the session
    it was given, stamped with the current time. *)
Lemma set_stores self c _id sess now :
  collection self = Some c ->
  exists d, d ∈ records (snd (set _id sess now self)) /\
            Loki._id d = _id /\ Loki.session d = sess /\
            Loki.updatedAt d = JS.Date now.
Proof.
  intros Hc.
  destruct (set_outcome self c _id sess now Hc)
    as (c' & r & d & rest & -> & _ & Hs & Hu & Hid & Hl & _).
  exists d. split; [|auto]. apply list_elem_of_lookup. exists r. exact Hl.
Qed.

(** X12. Every record the store writes has its [updatedAt] set, and no
    method unsets it: when every stored record has a truthy [updatedAt]
    before a call, every stored record has one after it. *)
Lemma call_keeps_stamped now op self :
  stamped self -> stamped (snd (call now op self)).
Proof.
  intros H. destruct (collection self) as [c|] eqn:Hc.
  - destruct (call_loaded now op self c Hc) as (args & c' & -> & _ & _ & Hl).
    unfold stamped in *. rewrite (records_loaded self c Hc) in H.
    change (Forall (fun d => JS.truthy (Loki.updatedAt d) = true) (Loki.data c')).
    destruct Hl as [->|[->|[(i & ->)|[(i & v & ->)|[(r & d & v & _ & ->)|(r & d & _ & ->)]]]]].
    + exact H.
    + constructor.
    + rewrite Forall_forall in *. intros d Hd. apply remove_id_elem in Hd.
      apply H, Hd.
    + apply Forall_app. split; [exact H|]. now constructor.
    + now apply Forall_insert.
    + now apply Forall_insert.
  - now rewrite (call_unset now op self Hc).
Qed.

Lemma created_collection_stamped self : stamped (loaded None self).
Proof. constructor. Qed.

End Invariants.

(** ** Expiry *)

(** C2. When the [ttl] option is absent or [0], the store resolves its
    [ttl] to the default 1209600 and registers no sweep timer; a record
    written by [set] at time [T] is then still stored, and [get] answers
    as it did right after the [set], after any number of timer rounds at
    any later times: no sweep ever removes it. *)
Theorem no_expiry_when_ttl_zero_or_absent options saved _id payload T history :
  JS.prop (default ∅ options) "ttl" = JS.Undefined \/
  JS.prop (default ∅ options) "ttl" = JS.Number 0 ->
  Forall (fun te => snd te = ConnectLoki.Timers) history ->
  let store := ConnectLoki.loaded saved (fst (ConnectLoki.LokiStore options)) in
  let self := snd (ConnectLoki.set _id payload T store) in
  ConnectLoki.ttl store = JS.Number 1209600 /\
  ConnectLoki.sweeping self = false /\
  ConnectLoki.run history self = self /\
  fst (ConnectLoki.get _id (ConnectLoki.run history self)) =
    fst (ConnectLoki.get _id self) /\
  exists d, d ∈ ConnectLoki.records (ConnectLoki.run history self) /\
            Loki._id d = _id /\ Loki.session d = payload.
Proof.
  intros Httl Hh store self.
  assert (Hs : ConnectLoki.sweeping self = false).
  { subst self.
    change (ConnectLoki.sweeping
              (snd (ConnectLoki.call T (ConnectLoki.OpSet _id payload) store)) = false).
    rewrite call_keeps_sweeping. apply loaded_not_sweeping. }
  assert (Hrun : ConnectLoki.run history self = self)
    by now apply run_timers_idle.
  split; [|split; [exact Hs|split; [exact Hrun|split]]].
  - subst store. unfold ConnectLoki.loaded, ConnectLoki.LokiStore.
    destruct (JS.truthy (JS.prop (default ∅ options) "logErrors")); simpl;
      now destruct Httl as [-> | ->].
  - now rewrite Hrun.
  - rewrite Hrun.
    assert (Hc : exists c, ConnectLoki.collection store = Some c)
      by (subst store; destruct saved; eexists; reflexivity).
    destruct Hc as [c Hc].
    destruct (set_stores store c _id payload T Hc) as (d & Hd & Hid & Hp & _).
    exists d. auto.
Qed.

Lemma no_expiry_when_ttl_zero_or_absent_witness :
  let B := JS.Object [("user", JS.String "bob")] in
  let store := ConnectLoki.loaded None
                 (fst (ConnectLoki.LokiStore (Some {[ "ttl" := JS.Number 0 ]}))) in
  let self := snd (ConnectLoki.set "A" B 1000 store) in
  let later := ConnectLoki.run
                 [(1000 + 1209600, ConnectLoki.Timers);
                  (1000 + 1209600000, ConnectLoki.Timers);
                  (1000 + 2 * 1209600000, ConnectLoki.Timers)] self in
  later = self /\ fst (ConnectLoki.get "A" later) = JS.Normal [JS.Null; B].
Proof.
  intros B store self later.
  pose proof (no_expiry_when_ttl_zero_or_absent
                (Some {[ "ttl" := JS.Number 0 ]}) None "A" B 1000
                [(1000 + 1209600, ConnectLoki.Timers);
                 (1000 + 1209600000, ConnectLoki.Timers);
                 (1000 + 2 * 1209600000, ConnectLoki.Timers)]
                (or_intror eq_refl) ltac:(repeat constructor))
    as (_ & _ & Hrun & Hget & _).
  split; [exact Hrun | exact Hget].
Defined.

(** C7. The code at the claim's scenario: a store built with [ttl: 2],
    ['A'] set at time 0, the timers coming due at 2, 2000 and 3000 ms.
    The store's [ttl] is 2, no sweep timer is registered, and [get('A')]
    at 3000 ms still yields the session. *)
Theorem record_outlives_ttl :
  let B := JS.Object [("user", JS.String "bob")] in
  let store := ConnectLoki.loaded None
                 (fst (ConnectLoki.LokiStore (Some {[ "ttl" := JS.Number 2 ]}))) in
  let later := ConnectLoki.run
                 [(0, ConnectLoki.Invoke (ConnectLoki.OpSet "A" B));
                  (2, ConnectLoki.Timers);
                  (2000, ConnectLoki.Timers);
                  (3000, ConnectLoki.Timers)] store in
  ConnectLoki.ttl store = JS.Number 2 /\
  ConnectLoki.sweeping later = false /\
  fst (ConnectLoki.get "A" later) = JS.Normal [JS.Null; B] /\
  ConnectLoki.not_found [JS.Null; B] = false.
Proof. repeat split. Qed.

(** ** Faults *)

(** C3. The code before the database has loaded: on a newly constructed
    store [get] answers not-found, but [set], [destroy], [clear],
    [length] and [touch] throw a TypeError at the unset collection handle
    and never call back. *)
Theorem methods_throw_before_load :
  let self := fst (ConnectLoki.LokiStore None) in
  let fault := JS.Throw (JS.TypeError "Cannot read properties of undefined") in
  ConnectLoki.get "A" self = (JS.Normal [JS.Null], self) /\
  ConnectLoki.set "A" (JS.String "x") 0 self = (fault, self) /\
  ConnectLoki.destroy "A" self = (fault, self) /\
  ConnectLoki.clear self = (fault, self) /\
  ConnectLoki.length self = (fault, self) /\
  ConnectLoki.touch "A" (JS.String "x") 0 self = (fault, self).
Proof. repeat split. Qed.

(** ** Construction *)

(** C9, as the code has it. The constructor leaves every property of the
    caller's options object other than [logErrors] as it was; it leaves
    the whole object as it was when [logErrors] is falsy or a function;
    and it overwrites [logErrors] with the console logger when it is
    truthy and not a function. *)
Theorem constructor_rewrites_only_logErrors (options : gmap string JS.Value) :
  let after := snd (ConnectLoki.LokiStore (Some options)) in
  (forall k, k <> "logErrors" -> after !! k = options !! k) /\
  (JS.truthy (JS.prop options "logErrors") = false \/
   JS.is_function (JS.prop options "logErrors") = true ->
   after = options) /\
  (JS.truthy (JS.prop options "logErrors") = true ->
   JS.is_function (JS.prop options "logErrors") = false ->
   after = <["logErrors" := ConnectLoki.console_logger]> options).
Proof.
  unfold ConnectLoki.LokiStore; simpl.
  destruct (JS.truthy (JS.prop options "logErrors")) eqn:Ht;
    destruct (JS.is_function (JS.prop options "logErrors")) eqn:Hf; simpl;
    repeat split; try reflexivity; try discriminate.
  - intros k Hk. now apply lookup_insert_ne.
  - intros [H|H]; discriminate.
Qed.

(** C9 as stated fails: constructed with [{ logErrors: true }], the
    store replaces the caller's [logErrors] by a function. *)
Lemma constructor_overwrites_logErrors_true :
  let options : gmap string JS.Value := {[ "logErrors" := JS.Bool true ]} in
  snd (ConnectLoki.LokiStore (Some options)) !! "logErrors" =
    Some ConnectLoki.console_logger /\
  snd (ConnectLoki.LokiStore (Some options)) !! "logErrors" <>
    options !! "logErrors".
Proof. split; [reflexivity | discriminate]. Qed.

(** * Further properties of the store *)

(** ** What writes do to the stored documents *)

Section Writes.

Import ConnectLoki.

Lemma set_records self _id sess now :
  ((matches _id self = [] \/ first_session_truthy _id self = false) /\
   records (snd (set _id sess now self)) = records self ++ [inserted _id sess now]) \/
  (exists r d rest,
     matches _id self = (r, d) :: rest /\ JS.truthy (Loki.session d) = true /\
     records self !! r = Some d /\ Loki._id d = _id /\
     records (snd (set _id sess now self)) =
       <[r := replaced sess now d]> (records self)) \/
  (collection self = None /\ snd (set _id sess now self) = self).
Proof.
  destruct (collection self) as [c|] eqn:Hc.
  - rewrite (records_loaded self c Hc).
    destruct (matches _id self) as [|[r d] rest] eqn:Hm;
      [|destruct (JS.truthy (Loki.session d)) eqn:Ht].
    + left. rewrite (set_inserts self c _id sess now Hc (or_intror Hm)). auto.
    + right. left. exists r, d, rest.
      rewrite (set_replaces self c _id sess now r d rest Hc Hm Ht).
      rewrite (matches_loaded self c _id Hc) in Hm.
      destruct (matching_first _ _ _ _ _ Hm) as [Hl Hid]. auto.
    + assert (Hf : first_session_truthy _id self = false)
        by (unfold first_session_truthy; now rewrite Hm).
      left. rewrite (set_inserts self c _id sess now Hc (or_introl Hf)). auto.
  - right. right. split; [reflexivity|].
    pose proof (call_unset now (OpSet _id sess) self Hc) as H. simpl in H.
    now rewrite H.
Qed.

Lemma touch_records self _id sess now :
  snd (touch _id sess now self) = self \/
  exists r d rest,
    matches _id self = (r, d) :: rest /\
    records self !! r = Some d /\
    records (snd (touch _id sess now self)) = <[r := touched now d]> (records self).
Proof.
  destruct (collection self) as [c|] eqn:Hc.
  - rewrite (records_loaded self c Hc).
    destruct (matches _id self) as [|[r d] rest] eqn:Hm;
      [|destruct (JS.truthy (Loki.updatedAt d)) eqn:Ht].
    + left. now rewrite (touch_skips self c _id sess now Hc Hm).
    + right. exists r, d, rest.
      rewrite (touch_refreshes self c _id sess now r d rest Hc Hm Ht).
      rewrite (matches_loaded self c _id Hc) in Hm.
      destruct (matching_first _ _ _ _ _ Hm) as [Hl _]. auto.
    + left. now rewrite (touch_ignores self c _id sess now r d rest Hc Hm Ht).
  - left. pose proof (call_unset now (OpTouch _id sess) self Hc) as H.
    simpl in H. now rewrite H.
Qed.

Lemma destroy_records self _id :
  records (snd (destroy _id self)) = Loki.remove_id _id (records self).
Proof.
  destruct (collection self) as [c|] eqn:Hc.
  - now rewrite (destroy_loaded self c _id Hc), (records_loaded self c Hc).
  - pose proof (call_unset 0 (OpDestroy _id) self Hc) as H. simpl in H.
    rewrite H. simpl. unfold records. now rewrite Hc.
Qed.

Lemma clear_records self : records (snd (clear self)) = [].
Proof.
  destruct (collection self) as [c|] eqn:Hc.
  - now rewrite (clear_loaded self c Hc).
  - pose proof (call_unset 0 OpClear self Hc) as H. simpl in H.
    rewrite H. simpl. unfold records. now rewrite Hc.
Qed.

Lemma read_records self _id :
  snd (get _id self) = self /\ snd (length self) = self.
Proof.
  destruct (collection self) as [c|] eqn:Hc.
  - now rewrite (get_loaded self c _id Hc), (length_loaded self c Hc).
  - rewrite (get_unset self _id Hc).
    pose proof (call_unset 0 OpLength self Hc) as H. simpl in H. now rewrite H.
Qed.

Lemma ids_insert_same (l : list Loki.Doc) (r : nat) (d d' : Loki.Doc) :
  l !! r = Some d -> Loki._id d' = Loki._id d ->
  Loki._id <$> <[r := d']> l = Loki._id <$> l.
Proof.
  intros Hl Hid. rewrite list_fmap_insert, Hid.
  apply list_insert_id. now rewrite list_lookup_fmap, Hl.
Qed.

(** The answer of [get] is decided by the session of the document [find]
    yields first. *)
Lemma get_answer self q :
  fst (get q self) =
  JS.Normal match matches q self with
            | (_, d) :: _ =>
                if JS.truthy (Loki.session d)
                then [JS.Null; Loki.session d] else [JS.Null]
            | [] => [JS.Null]
            end.
Proof.
  destruct (collection self) as [c|] eqn:Hc.
  - now rewrite (get_loaded self c q Hc).
  - rewrite (get_unset self q Hc). unfold matches. now rewrite Hc.
Qed.

End Writes.

(** ** Reading *)

(** X1. [get] and [length] never change the store, loaded or not. *)
Theorem get_and_length_read_only self _id :
  snd (ConnectLoki.get _id self) = self /\ snd (ConnectLoki.length self) = self.
Proof.
  destruct (ConnectLoki.collection self) as [c|] eqn:Hc.
  - now rewrite (get_loaded self c _id Hc), (length_loaded self c Hc).
  - rewrite (get_unset self _id Hc).
    pose proof (call_unset 0 ConnectLoki.OpLength self Hc) as H. simpl in H.
    now rewrite H.
Qed.

(** X2. On a loaded store [clear()] calls back with a null error and
    removes every record: afterwards [length()] answers 0 and [get]
    reports not-found for every id. *)
Theorem clear_empties self c :
  ConnectLoki.collection self = Some c ->
  let self' := snd (ConnectLoki.clear self) in
  fst (ConnectLoki.clear self) = JS.Normal [JS.Null] /\
  ConnectLoki.records self' = [] /\
  fst (ConnectLoki.length self') = JS.Normal [JS.Null; JS.Number 0] /\
  forall _id, fst (ConnectLoki.get _id self') = JS.Normal [JS.Null].
Proof.
  intros Hc self'. subst self'. rewrite (clear_loaded self c Hc). cbn [fst snd].
  set (self' := ConnectLoki.with_collection _ self).
  assert (Hc' : ConnectLoki.collection self' =
                Some (Loki.with_front [] (Loki.with_data [] c))) by reflexivity.
  assert (Hr : ConnectLoki.records self' = []) by reflexivity.
  split; [reflexivity|]. split; [exact Hr|]. split.
  - now rewrite (length_loaded _ _ Hc'), Hr.
  - intros _id. rewrite get_answer.
    replace (ConnectLoki.matches _id self') with (@nil (nat * Loki.Doc)); [reflexivity|].
    symmetry. apply matches_absent. unfold ConnectLoki.ids. rewrite Hr.
    apply not_elem_of_nil.
Qed.

Lemma clear_empties_witness :
  let self := snd (ConnectLoki.set "B" (JS.String "y") 1
                (snd (ConnectLoki.set "A" (JS.String "x") 0 ConnectLoki.fresh))) in
  fst (ConnectLoki.length self) = JS.Normal [JS.Null; JS.Number 2] /\
  fst (ConnectLoki.length (snd (ConnectLoki.clear self))) =
    JS.Normal [JS.Null; JS.Number 0] /\
  fst (ConnectLoki.get "A" (snd (ConnectLoki.clear self))) = JS.Normal [JS.Null].
Proof.
  intros self.
  pose proof (clear_empties self _ eq_refl) as (_ & _ & Hn & Hg).
  exact (conj eq_refl (conj Hn (Hg "A"))).
Defined.

(** ** Sessions do not interfere *)

(** X3. [touch] never changes which ids and sessions are stored, so the
    answer of [get] for every id is the same before and after a [touch],
    whatever the store and the arguments. *)
Theorem touch_keeps_content self _id sess now :
  let self' := snd (ConnectLoki.touch _id sess now self) in
  ConnectLoki.content self' = ConnectLoki.content self /\
  forall q, fst (ConnectLoki.get q self') = fst (ConnectLoki.get q self).
Proof.
  intros self'. subst self'.
  destruct (ConnectLoki.collection self) as [c|] eqn:Hc.
  2: { pose proof (call_unset now (ConnectLoki.OpTouch _id sess) self Hc) as H.
       simpl in H. now rewrite H. }
  destruct (ConnectLoki.matches _id self) as [|[r d] rest] eqn:Hm;
    [|destruct (JS.truthy (Loki.updatedAt d)) eqn:Ht].
  - now rewrite (touch_skips self c _id sess now Hc Hm).
  - rewrite (touch_refreshes self c _id sess now r d rest Hc Hm Ht). cbn [snd].
    pose proof Hm as Hm'. rewrite (matches_loaded self c _id Hc) in Hm'.
    destruct (matching_first _ _ _ _ _ Hm') as [Hl Hid].
    split.
    + unfold ConnectLoki.content. rewrite (records_loaded self c Hc).
      change (ConnectLoki.records (ConnectLoki.with_collection _ self))
        with (<[r := ConnectLoki.touched now d]> (Loki.data c)).
      rewrite list_fmap_insert. apply list_insert_id.
      now rewrite list_lookup_fmap, Hl.
    + intros q. rewrite !get_answer.
      change (ConnectLoki.matches q (ConnectLoki.with_collection _ self))
        with (Loki.matching q
                (Loki.with_front (r :: Loki.front c)
                   (Loki.with_data (<[r := ConnectLoki.touched now d]> (Loki.data c)) c))).
      rewrite (matching_update q c r d (ConnectLoki.touched now d) Hl eq_refl).
      destruct (String.eqb (Loki._id d) q) eqn:E.
      * apply String.eqb_eq in E. rewrite Hid in E. subst q. now rewrite Hm.
      * now rewrite (matches_loaded self c q Hc).
  - now rewrite (touch_ignores self c _id sess now r d rest Hc Hm Ht).
Qed.

(** X4. [set(id, ...)] does not change what [get] answers for any other
    id, whatever the store and the session written. *)
Theorem set_isolates self _id sess now q :
  q <> _id ->
  fst (ConnectLoki.get q (snd (ConnectLoki.set _id sess now self))) =
  fst (ConnectLoki.get q self).
Proof.
  intros Hne. rewrite !get_answer.
  destruct (ConnectLoki.collection self) as [c|] eqn:Hc.
  2: { pose proof (call_unset now (ConnectLoki.OpSet _id sess) self Hc) as H.
       simpl in H. now rewrite H. }
  rewrite (matches_loaded self c q Hc).
  assert (Hins : ConnectLoki.matches q
            (ConnectLoki.with_collection
               (Some (Loki.with_front (List.length (Loki.data c) :: Loki.front c)
                        (Loki.with_data
                           (Loki.data c ++ [ConnectLoki.inserted _id sess now]) c)))
               self) = Loki.matching q c).
  { unfold ConnectLoki.matches. cbn [ConnectLoki.collection ConnectLoki.with_collection].
    rewrite matching_insert. simpl.
    destruct (String.eqb _id q) eqn:E; [|reflexivity].
    apply String.eqb_eq in E. congruence. }
  destruct (ConnectLoki.matches _id self) as [|[r d] rest] eqn:Hm;
    [|destruct (JS.truthy (Loki.session d)) eqn:Ht].
  - rewrite (set_inserts self c _id sess now Hc (or_intror Hm)). cbn [snd].
    now rewrite Hins.
  - rewrite (set_replaces self c _id sess now r d rest Hc Hm Ht). cbn [snd].
    rewrite (matches_loaded self c _id Hc) in Hm.
    destruct (matching_first _ _ _ _ _ Hm) as [Hl Hid].
    unfold ConnectLoki.matches. cbn [ConnectLoki.collection ConnectLoki.with_collection].
    rewrite (matching_update q c r d (ConnectLoki.replaced sess now d) Hl eq_refl).
    destruct (String.eqb (Loki._id d) q) eqn:E; [|reflexivity].
    apply String.eqb_eq in E. congruence.
  - rewrite (set_inserts self c _id sess now Hc).
    + cbn [snd]. now rewrite Hins.
    + left. unfold ConnectLoki.first_session_truthy. now rewrite Hm.
Qed.

Lemma set_isolates_witness :
  let self := snd (ConnectLoki.set "A" (JS.String "x") 0 ConnectLoki.fresh) in
  fst (ConnectLoki.get "A" (snd (ConnectLoki.set "B" (JS.String "y") 1 self))) =
  JS.Normal [JS.Null; JS.String "x"].
Proof.
  intros self.
  exact (set_isolates self "B" (JS.String "y") 1 "A" ltac:(discriminate)).
Defined.

(** ** How writes and removals compose *)

Section Composition.

Import ConnectLoki.

(** The documents a [set] leaves differ from the old ones only in
    documents carrying the id. *)
Lemma set_then_remove self c _id sess now :
  collection self = Some c ->
  exists l f,
    snd (set _id sess now self) =
      with_collection (Some (Loki.with_front f (Loki.with_data l c))) self /\
    Loki.remove_id _id l = Loki.remove_id _id (Loki.data c).
Proof.
  intros Hc.
  assert (Hins : Loki.remove_id _id (Loki.data c ++ [inserted _id sess now]) =
                 Loki.remove_id _id (Loki.data c)).
  { rewrite remove_id_app. simpl. rewrite String.eqb_refl. apply app_nil_r. }
  destruct (matches _id self) as [|[r d] rest] eqn:Hm;
    [|destruct (JS.truthy (Loki.session d)) eqn:Ht].
  - eexists _, _. rewrite (set_inserts self c _id sess now Hc (or_intror Hm)).
    split; [reflexivity | exact Hins].
  - eexists _, _. rewrite (set_replaces self c _id sess now r d rest Hc Hm Ht).
    split; [reflexivity|].
    rewrite (matches_loaded self c _id Hc) in Hm.
    destruct (matching_first _ _ _ _ _ Hm) as [Hl Hid].
    now apply (remove_id_insert _id _ r d).
  - eexists _, _. rewrite (set_inserts self c _id sess now Hc).
    + split; [reflexivity | exact Hins].
    + left. unfold first_session_truthy. now rewrite Hm.
Qed.

End Composition.

Ltac same_count :=
  match goal with
  | |- JS.Normal [_; JS.Number ?x] = JS.Normal [_; JS.Number ?y] =>
      apply (f_equal (fun n => JS.Normal [JS.Null; JS.Number n])); lia
  end.

(** X6. A [destroy(id)] undoes a preceding [set(id, ...)]: the store after
    [set] then [destroy] is the store after [destroy] alone, and when no
    record had the id its records are those from before the [set]. *)
Theorem destroy_undoes_set self _id sess now :
  snd (ConnectLoki.destroy _id (snd (ConnectLoki.set _id sess now self))) =
    snd (ConnectLoki.destroy _id self) /\
  (ConnectLoki.matches _id self = [] ->
   is_Some (ConnectLoki.collection self) ->
   ConnectLoki.records
     (snd (ConnectLoki.destroy _id (snd (ConnectLoki.set _id sess now self)))) =
   ConnectLoki.records self).
Proof.
  assert (H : snd (ConnectLoki.destroy _id (snd (ConnectLoki.set _id sess now self))) =
              snd (ConnectLoki.destroy _id self)).
  { destruct (ConnectLoki.collection self) as [c|] eqn:Hc.
    - destruct (set_then_remove self c _id sess now Hc) as (l & f & -> & Hl).
      erewrite destroy_loaded by reflexivity.
      rewrite (destroy_loaded self c _id Hc). cbn [snd]. simpl. now rewrite Hl.
    - pose proof (call_unset now (ConnectLoki.OpSet _id sess) self Hc) as Hs.
      simpl in Hs. now rewrite Hs. }
  split; [exact H|].
  intros Hm [c Hc]. rewrite H, destroy_records.
  apply remove_id_absent. now apply matches_absent.
Qed.

(** X7. On a loaded store [set] makes [length()] grow by exactly one when
    no record has the id or the record found first carries a falsy
    session, and leaves it as it is otherwise. *)
Theorem length_after_set self c _id sess now :
  ConnectLoki.collection self = Some c ->
  fst (ConnectLoki.length (snd (ConnectLoki.set _id sess now self))) =
  JS.Normal
    [JS.Null;
     JS.Number (Z.of_nat (List.length (ConnectLoki.records self)) +
                match ConnectLoki.matches _id self with
                | (_, d) :: _ => if JS.truthy (Loki.session d) then 0 else 1
                | [] => 1
                end)].
Proof.
  intros Hc. rewrite (records_loaded self c Hc).
  destruct (ConnectLoki.matches _id self) as [|[r d] rest] eqn:Hm;
    [|destruct (JS.truthy (Loki.session d)) eqn:Ht].
  - rewrite (set_inserts self c _id sess now Hc (or_intror Hm)). cbn [snd].
    erewrite length_loaded by reflexivity. cbn [fst].
    change (ConnectLoki.records (ConnectLoki.with_collection _ self))
      with (Loki.data c ++ [ConnectLoki.inserted _id sess now]).
    rewrite length_app. simpl List.length. same_count.
  - rewrite (set_replaces self c _id sess now r d rest Hc Hm Ht). cbn [snd].
    erewrite length_loaded by reflexivity. cbn [fst].
    change (ConnectLoki.records (ConnectLoki.with_collection _ self))
      with (<[r := ConnectLoki.replaced sess now d]> (Loki.data c)).
    rewrite length_insert. same_count.
  - rewrite (set_inserts self c _id sess now Hc).
    + cbn [snd]. erewrite length_loaded by reflexivity. cbn [fst].
      change (ConnectLoki.records (ConnectLoki.with_collection _ self))
        with (Loki.data c ++ [ConnectLoki.inserted _id sess now]).
      rewrite length_app. simpl List.length. same_count.
    + left. unfold ConnectLoki.first_session_truthy. now rewrite Hm.
Qed.

Lemma length_after_set_witness :
  let self := snd (ConnectLoki.set "A" (JS.Object []) 1
                (snd (ConnectLoki.set "A" (JS.String "") 0 ConnectLoki.fresh))) in
  fst (ConnectLoki.length (snd (ConnectLoki.set "B" (JS.String "y") 2 self))) =
    JS.Normal [JS.Null; JS.Number 3] /\
  fst (ConnectLoki.length (snd (ConnectLoki.set "A" (JS.String "c") 2 self))) =
    JS.Normal [JS.Null; JS.Number 2].
Proof.
  intros self. split.
  - exact (length_after_set self _ "B" (JS.String "y") 2 eq_refl).
  - exact (length_after_set self _ "A" (JS.String "c") 2 eq_refl).
Defined.

(** X8. On a loaded store [destroy(id)] removes exactly the records [find]
    yields for the id: the count [length()] answers drops by their
    number. *)
Theorem destroy_drops_matches self c _id :
  ConnectLoki.collection self = Some c ->
  fst (ConnectLoki.length (snd (ConnectLoki.destroy _id self))) =
  JS.Normal
    [JS.Null;
     JS.Number (Z.of_nat (List.length (ConnectLoki.records self)) -
                Z.of_nat (List.length (ConnectLoki.matches _id self)))].
Proof.
  intros Hc. rewrite (destroy_loaded self c _id Hc). cbn [snd].
  erewrite length_loaded by reflexivity. cbn [fst].
  change (ConnectLoki.records (ConnectLoki.with_collection _ self))
    with (Loki.remove_id _id (Loki.data c)).
  rewrite (records_loaded self c Hc), (matches_loaded self c _id Hc).
  pose proof (matching_length _id c) as H. same_count.
Qed.

Lemma destroy_drops_matches_witness :
  let self := snd (ConnectLoki.set "A" (JS.String "x") 1
                (snd (ConnectLoki.set "A" (JS.String "") 0 ConnectLoki.fresh))) in
  fst (ConnectLoki.length self) = JS.Normal [JS.Null; JS.Number 2] /\
  fst (ConnectLoki.length (snd (ConnectLoki.destroy "A" self))) =
    JS.Normal [JS.Null; JS.Number 0].
Proof.
  intros self. split; [reflexivity|].
  exact (destroy_drops_matches self _ "A" eq_refl).
Defined.

(** ** Faults, in general *)

(** X9. On a loaded store every method completes: it does not throw, it
    calls back with no error, and the store stays loaded. *)
Theorem loaded_methods_call_back self c now op :
  ConnectLoki.collection self = Some c ->
  exists args self',
    ConnectLoki.call now op self = (JS.Normal args, self') /\
    ConnectLoki.no_error args = true /\
    is_Some (ConnectLoki.collection self').
Proof.
  intros Hc.
  destruct (call_loaded now op self c Hc) as (args & c' & H & He & _).
  exists args, (ConnectLoki.with_collection (Some c') self).
  split; [exact H|]. split; [exact He|]. simpl. eauto.
Qed.

Lemma loaded_methods_call_back_witness :
  exists args self',
    ConnectLoki.call 7 (ConnectLoki.OpTouch "A" JS.Null) ConnectLoki.fresh =
      (JS.Normal args, self') /\
    ConnectLoki.no_error args = true /\
    is_Some (ConnectLoki.collection self').
Proof.
  exact (loaded_methods_call_back ConnectLoki.fresh _
           7 (ConnectLoki.OpTouch "A" JS.Null) eq_refl).
Defined.

(** X10. While the collection handle is unset, no method changes the
    store; [get] answers not-found and every other method throws a
    TypeError instead of calling back, whatever its arguments. *)
Theorem unloaded_methods_throw self now op :
  ConnectLoki.collection self = None ->
  snd (ConnectLoki.call now op self) = self /\
  fst (ConnectLoki.call now op self) =
    match op with
    | ConnectLoki.OpGet _ => JS.Normal [JS.Null]
    | _ => JS.Throw (JS.TypeError "Cannot read properties of undefined")
    end.
Proof. intros Hc. now rewrite (call_unset now op self Hc). Qed.

Lemma unloaded_methods_throw_witness :
  fst (ConnectLoki.call 3 (ConnectLoki.OpSet "A" (JS.String "x"))
         (fst (ConnectLoki.LokiStore (Some {[ "ttl" := JS.Number 60 ]})))) =
  JS.Throw (JS.TypeError "Cannot read properties of undefined").
Proof.
  exact (proj2 (unloaded_methods_throw
                  (fst (ConnectLoki.LokiStore (Some {[ "ttl" := JS.Number 60 ]})))
                  3 (ConnectLoki.OpSet "A" (JS.String "x")) eq_refl)).
Defined.

(** ** Invariants of the stored documents *)

(** X11. As long as no falsy session is written, every method keeps the
    stored ids pairwise distinct and the stored sessions truthy. *)
Theorem call_keeps_ids_unique now op self :
  NoDup (ConnectLoki.ids self) ->
  ConnectLoki.sessions_truthy self ->
  ConnectLoki.writes_truthy op = true ->
  NoDup (ConnectLoki.ids (snd (ConnectLoki.call now op self))) /\
  ConnectLoki.sessions_truthy (snd (ConnectLoki.call now op self)).
Proof.
  unfold ConnectLoki.ids, ConnectLoki.sessions_truthy.
  intros Hu Ht Hw. destruct op as [i|i v|i| | |i v]; simpl in *.
  - now rewrite (proj1 (read_records self i)).
  - destruct (set_records self i v now)
      as [[Hm ->]|[(r & d & rest & Hm & _ & Hl & Hid & ->)|[_ ->]]]; [| |auto].
    + assert (Hnil : ConnectLoki.matches i self = []).
      { destruct Hm as [Hm|Hm]; [exact Hm|].
        unfold ConnectLoki.first_session_truthy in Hm.
        destruct (ConnectLoki.matches i self) as [|[r d] rest] eqn:E; [discriminate|].
        assert (Hl : ConnectLoki.records self !! r = Some d).
        { unfold ConnectLoki.matches, ConnectLoki.records in *.
          destruct (ConnectLoki.collection self) as [c|]; [|discriminate].
          apply (matching_first _ _ _ _ _ E). }
        rewrite Forall_lookup in Ht. rewrite (Ht _ _ Hl) in Hm. discriminate. }
      apply matches_absent in Hnil. split.
      * rewrite fmap_app. apply NoDup_app. split; [exact Hu|]. split.
        -- intros x Hx Hx'. apply list_elem_of_singleton in Hx'. now subst x.
        -- apply NoDup_singleton.
      * apply Forall_app. split; [exact Ht|]. now constructor.
    + split.
      * now rewrite (ids_insert_same _ r d).
      * now apply Forall_insert.
  - rewrite destroy_records. split; [now apply remove_id_NoDup|].
    rewrite Forall_forall in *. intros d Hd. apply remove_id_elem in Hd. apply Ht, Hd.
  - rewrite clear_records. split; constructor.
  - now rewrite (proj2 (read_records self "")).
  - destruct (touch_records self i v now) as [->|(r & d & rest & _ & Hl & ->)]; [auto|].
    split.
    + now rewrite (ids_insert_same _ r d).
    + apply Forall_insert; [exact Ht|]. rewrite Forall_lookup in Ht.
      apply (Ht _ _ Hl).
Qed.

Lemma call_keeps_ids_unique_witness :
  let self := snd (ConnectLoki.set "A" (JS.String "x") 0 ConnectLoki.fresh) in
  NoDup (ConnectLoki.ids
           (snd (ConnectLoki.call 4 (ConnectLoki.OpSet "A" (JS.String "y")) self))).
Proof.
  intros self.
  exact (proj1 (call_keeps_ids_unique 4 (ConnectLoki.OpSet "A" (JS.String "y")) self
                  (NoDup_singleton "A")
                  ltac:(repeat constructor) eq_refl)).
Defined.

Lemma call_keeps_stamped_witness :
  ConnectLoki.stamped
    (snd (ConnectLoki.call 5 (ConnectLoki.OpSet "A" (JS.String "x")) ConnectLoki.fresh)).
Proof.
  exact (call_keeps_stamped 5 (ConnectLoki.OpSet "A" (JS.String "x")) ConnectLoki.fresh
           (List.Forall_nil _)).
Defined.

Section Persistence.

Import ConnectLoki.

Lemma step_keeps_ids now e self :
  sweeping self = false ->
  keeps_records e = true ->
  exists k, ids (step now e self) = ids self ++ k.
Proof.
  unfold ids. intros Hs He. destruct e as [[i|i v|i| | |i v]|saved|];
    simpl in He; try discriminate; simpl.
  - exists []. now rewrite (proj1 (read_records self i)), app_nil_r.
  - destruct (set_records self i v now)
      as [[_ ->]|[(r & d & rest & _ & _ & Hl & Hid & ->)|[_ ->]]].
    + exists [i]. now rewrite fmap_app.
    + exists []. now rewrite (ids_insert_same _ r d), app_nil_r.
    + exists []. now rewrite app_nil_r.
  - exists []. now rewrite (proj2 (read_records self "")), app_nil_r.
  - destruct (touch_records self i v now) as [->|(r & d & rest & _ & Hl & ->)].
    + exists []. now rewrite app_nil_r.
    + exists []. now rewrite (ids_insert_same _ r d), app_nil_r.
  - exists []. change (Loki._id <$> records (step now Timers self) =
                       (Loki._id <$> records self) ++ []).
    now rewrite (timers_idle now self Hs), app_nil_r.
Qed.

End Persistence.

(** X13. Only [destroy], [clear] and a reload take records away: along
    any history of other calls and timer rounds, on a store without a
    sweep timer, the stored ids stay where they are and new ones are only
    added behind them. *)
Theorem ids_persist history self :
  ConnectLoki.sweeping self = false ->
  Forall (fun te => ConnectLoki.keeps_records (snd te) = true) history ->
  exists k, ConnectLoki.ids (ConnectLoki.run history self) = ConnectLoki.ids self ++ k.
Proof.
  intros Hs Hh. revert self Hs.
  induction Hh as [|[now e] history He _ IH]; intros self Hs.
  - exists []. now rewrite app_nil_r.
  - simpl in He.
    destruct (step_keeps_ids now e self Hs He) as [k1 Hk1].
    destruct (IH (ConnectLoki.step now e self)
                (step_keeps_not_sweeping now e self Hs)) as [k2 Hk2].
    exists (k1 ++ k2).
    change (ConnectLoki.run ((now, e) :: history) self)
      with (ConnectLoki.run history (ConnectLoki.step now e self)).
    now rewrite Hk2, Hk1, app_assoc.
Qed.

Lemma ids_persist_witness :
  exists k,
    ConnectLoki.ids
      (ConnectLoki.run
         [(1, ConnectLoki.Invoke (ConnectLoki.OpSet "B" (JS.String "y")));
          (2, ConnectLoki.Timers);
          (3, ConnectLoki.Invoke (ConnectLoki.OpTouch "A" JS.Null));
          (4, ConnectLoki.Invoke (ConnectLoki.OpSet "A" (JS.String "")))]
         (snd (ConnectLoki.set "A" (JS.String "x") 0 ConnectLoki.fresh))) =
    ["A"] ++ k.
Proof.
  exact (ids_persist
           [(1, ConnectLoki.Invoke (ConnectLoki.OpSet "B" (JS.String "y")));
            (2, ConnectLoki.Timers);
            (3, ConnectLoki.Invoke (ConnectLoki.OpTouch "A" JS.Null));
            (4, ConnectLoki.Invoke (ConnectLoki.OpSet "A" (JS.String "")))]
           (snd (ConnectLoki.set "A" (JS.String "x") 0 ConnectLoki.fresh))
           eq_refl ltac:(repeat constructor)).
Defined.

(** X18. On a loaded store [set(id, sess)] at time [now] always leaves a
    record with that id, that session and [updatedAt] equal to [now],
    whatever was stored before and whether or not [sess] is truthy. *)
Theorem set_writes_record self c _id sess now :
  ConnectLoki.collection self = Some c ->
  exists d, d ∈ ConnectLoki.records (snd (ConnectLoki.set _id sess now self)) /\
            Loki._id d = _id /\ Loki.session d = sess /\
            Loki.updatedAt d = JS.Date now.
Proof.
  intros Hc.
  destruct (set_records self _id sess now)
    as [[_ H]|[(r & d & rest & _ & _ & Hl & Hid & H)|[Hn _]]]; [| |congruence].
  - exists (ConnectLoki.inserted _id sess now). rewrite H.
    rewrite elem_of_app, list_elem_of_singleton. auto.
  - exists (ConnectLoki.replaced sess now d). rewrite H.
    split; [|auto]. apply list_elem_of_lookup. exists r.
    apply list_lookup_insert_eq. eapply lookup_lt_Some, Hl.
Qed.

Lemma set_writes_record_witness :
  exists d,
    d ∈ ConnectLoki.records (snd (ConnectLoki.set "A" JS.Null 8 ConnectLoki.fresh)) /\
    Loki._id d = "A" /\ Loki.session d = JS.Null /\ Loki.updatedAt d = JS.Date 8.
Proof.
  exact (set_writes_record ConnectLoki.fresh _ "A" JS.Null 8 eq_refl).
Defined.

(** ** Construction *)

(** X15. The [ttl] the constructor resolves is never [null], [0] or any
    other falsy value: a truthy [ttl] option is kept and every falsy one
    (absent, [0], [null], ['']) becomes 1209600, so the reset to [null]
    for a [ttl] of [0] never takes effect. *)
Theorem constructor_ttl_never_null options :
  let given := JS.prop (default ∅ options) "ttl" in
  let self := fst (ConnectLoki.LokiStore options) in
  ConnectLoki.ttl self = (if JS.truthy given then given else JS.Number 1209600) /\
  JS.truthy (ConnectLoki.ttl self) = true /\
  ConnectLoki.ttl self <> JS.Null.
Proof.
  intros given self.
  assert (H : ConnectLoki.ttl self =
              if JS.truthy given then given else JS.Number 1209600).
  { subst self given. unfold ConnectLoki.LokiStore.
    destruct (JS.truthy (JS.prop (default ∅ options) "logErrors")); simpl;
      unfold JS.or;
      destruct (JS.prop (default ∅ options) "ttl") as [| |b|n| |s|ms|f|ps];
      try reflexivity;
      [destruct b | destruct n | destruct s | destruct b | destruct n | destruct s];
      reflexivity. }
  rewrite H. split; [reflexivity|].
  destruct (JS.truthy given) eqn:Ht; split; auto; try discriminate.
  intros E. rewrite E in Ht. discriminate.
Qed.

(** X16. The logger the constructor installs is always a function: the
    caller's [logErrors] when that is a function, the console logger when
    [logErrors] is truthy but not a function, and [_.noop] when it is
    falsy or absent. *)
Theorem constructor_logger_is_function options :
  let given := JS.prop (default ∅ options) "logErrors" in
  let self := fst (ConnectLoki.LokiStore options) in
  JS.is_function (ConnectLoki.logger self) = true /\
  ConnectLoki.logger self =
    (if JS.truthy given
     then if JS.is_function given then given else ConnectLoki.console_logger
     else ConnectLoki.noop).
Proof.
  intros given self. subst self given. unfold ConnectLoki.LokiStore.
  destruct (JS.truthy (JS.prop (default ∅ options) "logErrors")) eqn:Ht;
    [|split; reflexivity].
  destruct (JS.is_function (JS.prop (default ∅ options) "logErrors")) eqn:Hf; simpl.
  - now rewrite Hf.
  - unfold JS.prop. rewrite lookup_insert_eq. split; reflexivity.
Qed.
